(** * Prism AI: the rule-based SQL validator ([_shared/sql-validator.ts])

    A shallow embedding of the validation pipeline of
    [supabase/functions/_shared/sql-validator.ts]: comment stripping,
    statement splitting, operation classification, table and column
    extraction, risk analysis, limit enforcement and [validateSQL] itself.

    Text is a list of code units.  [ascii] values below 128 are the ASCII
    code units; the values from 128 up stand for code units outside ASCII,
    none of them white space or a line terminator.  Two of them have a case
    mapping into ASCII, as in JavaScript: 128 stands for U+017F (LATIN SMALL
    LETTER LONG S, whose upper case is [S]) and 129 for U+212A (KELVIN SIGN,
    whose lower case is [k]); the others stand for code units without case
    mapping.  White-space characters outside ASCII and characters whose case
    mapping is longer than one code unit are not represented.

    The validator is written with JavaScript regular expressions.  They are
    embedded as terms of [regex] and run by a backtracking matcher that
    follows the ECMAScript matching rules (priority of alternatives, greedy
    and lazy repetition, rejection of empty repetition steps, leftmost
    search). *)

From Stdlib Require Import Ascii String DecimalString.
From Stdlib Require Import List Bool Arith Lia.
Import ListNotations.

Set Implicit Arguments.

(** ** JavaScript strings *)

Definition str := list ascii.

Definition js (x : string) : str := list_ascii_of_string x.

(** The double quote, written by its code so that no literal has to escape it. *)
Definition dq : ascii := ascii_of_nat 34.

Module JS.

Definition code (c : ascii) : nat := nat_of_ascii c.

Definition between (lo hi : nat) (c : ascii) : bool :=
  (lo <=? code c) && (code c <=? hi).

(** LineTerminator: LF and CR (U+2028 and U+2029 are outside the model). *)
Definition isLineTerminator (c : ascii) : bool :=
  (code c =? 10) || (code c =? 13).

(** [\s] and the characters removed by [trim]: TAB, LF, VT, FF, CR, SP. *)
Definition isSpace (c : ascii) : bool :=
  between 9 13 c || (code c =? 32).

Definition isDigit (c : ascii) : bool := between 48 57 c.
Definition isUpper (c : ascii) : bool := between 65 90 c.
Definition isLower (c : ascii) : bool := between 97 122 c.
Definition isAlpha (c : ascii) : bool := isUpper c || isLower c.

(** [\w] is [A-Za-z0-9_]. *)
Definition isWord (c : ascii) : bool :=
  isAlpha c || isDigit c || (code c =? 95).

Definition isAscii (c : ascii) : bool := code c <? 128.

(** The two code units outside ASCII whose case mapping is an ASCII letter:
    U+017F and U+212A. *)
Definition longS : ascii := ascii_of_nat 128.
Definition kelvin : ascii := ascii_of_nat 129.

(** [toUpperCase] and [toLowerCase] on one code unit. *)
Definition upper (c : ascii) : ascii :=
  if isLower c then ascii_of_nat (code c - 32)
  else if Ascii.eqb c longS then "S"%char
  else c.
Definition lower (c : ascii) : ascii :=
  if isUpper c then ascii_of_nat (code c + 32)
  else if Ascii.eqb c kelvin then "k"%char
  else c.

(** Canonicalize of a regular expression with the i flag and without the u
    flag: the upper case of the code unit, except that a code unit outside
    ASCII is never taken to an ASCII one.  So neither U+017F nor U+212A
    matches a letter of a pattern. *)
Definition canon (c : ascii) : ascii :=
  if isAscii c then upper c else if isAscii (upper c) then c else upper c.

Definition toUpperCase (x : str) : str := map upper x.
Definition toLowerCase (x : str) : str := map lower x.

Fixpoint dropWhile (p : ascii -> bool) (x : str) : str :=
  match x with
  | c :: t => if p c then dropWhile p t else x
  | [] => []
  end.

Definition trimStart (x : str) : str := dropWhile isSpace x.
Definition trimEnd (x : str) : str := rev (dropWhile isSpace (rev x)).
Definition trim (x : str) : str := trimEnd (trimStart x).

Fixpoint eqs (x y : str) : bool :=
  match x, y with
  | [], [] => true
  | a :: x', b :: y' => Ascii.eqb a b && eqs x' y'
  | _, _ => false
  end.

Fixpoint startsWith (p x : str) : bool :=
  match p, x with
  | [], _ => true
  | a :: p', b :: x' => Ascii.eqb a b && startsWith p' x'
  | _ :: _, [] => false
  end.

(** [x.includes(p)] *)
Fixpoint includes (p x : str) : bool :=
  startsWith p x ||
  match x with
  | [] => false
  | _ :: t => includes p t
  end.

(** [arr.includes(x)] on an array of strings. *)
Definition member (x : str) (l : list str) : bool := existsb (eqs x) l.

(** [set.add(x)] on a [Set<string>], kept in insertion order. *)
Definition setAdd (l : list str) (x : str) : list str :=
  if member x l then l else l ++ [x].

(** [x.split(sep)] for a one-character separator. *)
Fixpoint split (sep : ascii) (x : str) : list str :=
  match x with
  | [] => [[]]
  | c :: t =>
      if Ascii.eqb c sep then [] :: split sep t
      else match split sep t with
           | h :: r => (c :: h) :: r
           | [] => [[c]]
           end
  end.

(** [arr.join(sep)] *)
Fixpoint join (sep : str) (l : list str) : str :=
  match l with
  | [] => []
  | [x] => x
  | x :: r => x ++ sep ++ join sep r
  end.

(** [parseInt(x, 10)] on a string of decimal digits, as an exact natural
    number. *)
Definition parseInt (x : str) : nat :=
  fold_left (fun acc c => 10 * acc + (code c - 48)) x 0.

(** [`${n}`] for a non-negative integer. *)
Definition ofNat (n : nat) : str := js (NilZero.string_of_uint (Nat.to_uint n)).

End JS.

(** ** Regular expressions *)

Module Regex.

(** The position of a match attempt: the text already passed (most recent
    character first), the text still ahead, and the captures made so far. *)
Record st : Type := mkSt {
  left : str;
  right : str;
  caps : list (nat * str)
}.

Inductive regex : Type :=
| Eps : regex                          (* the empty pattern *)
| Cls : (ascii -> bool) -> regex       (* one character of a class *)
| Cat : regex -> regex -> regex        (* r1 r2 *)
| Alt : regex -> regex -> regex        (* r1 | r2 *)
| Rep : bool -> regex -> regex         (* r* (true) and r*? (false) *)
| Grp : nat -> regex -> regex          (* capture group number n *)
| Bol : regex                          (* ^ without the m flag *)
| Eol : bool -> regex                  (* $, with the m flag when true *)
| Wb : regex.                          (* \b *)

Definition orElse (a b : option st) : option st :=
  match a with
  | Some _ => a
  | None => b
  end.

Definition atWordBoundary (x : st) : bool :=
  let a := match left x with c :: _ => JS.isWord c | [] => false end in
  let b := match right x with c :: _ => JS.isWord c | [] => false end in
  xorb a b.

Definition atEnd (multiline : bool) (x : st) : bool :=
  match right x with
  | [] => true
  | c :: _ => multiline && JS.isLineTerminator c
  end.

(** The text between two positions of one attempt. *)
Definition consumed (x y : st) : str :=
  rev (firstn (length (left y) - length (left x)) (left y)).

(** Repetition of the matcher [ma].  A step that consumes nothing is
    rejected, so [n] greater than the length of the text ahead is never
    exhausted. *)
Fixpoint rep (ma : (st -> option st) -> st -> option st) (greedy : bool)
         (k : st -> option st) (n : nat) (x : st) : option st :=
  match n with
  | 0 => k x
  | S n' =>
      let more :=
        ma (fun y => if length (right y) <? length (right x)
                     then rep ma greedy k n' y else None) x in
      if greedy then orElse more (k x) else orElse (k x) more
  end.

(** [mt r k x]: match [r] at [x], then continue with [k]; the first
    success in backtracking order. *)
Fixpoint mt (r : regex) (k : st -> option st) (x : st) : option st :=
  match r with
  | Eps => k x
  | Cls p =>
      match right x with
      | c :: t => if p c then k (mkSt (c :: left x) t (caps x)) else None
      | [] => None
      end
  | Cat a b => mt a (mt b k) x
  | Alt a b => orElse (mt a k x) (mt b k x)
  | Rep g a => rep (mt a) g k (S (length (right x))) x
  | Grp i a =>
      mt a (fun y => k (mkSt (left y) (right y) ((i, consumed x y) :: caps y))) x
  | Bol => match left x with [] => k x | _ :: _ => None end
  | Eol m => if atEnd m x then k x else None
  | Wb => if atWordBoundary x then k x else None
  end.

(** One attempt at the position with [l] behind and [rt] ahead. *)
Definition matchAt (r : regex) (l rt : str) : option st :=
  mt r Some (mkSt l rt []).

(** Leftmost match at or after the position: its start index and end. *)
Fixpoint search (r : regex) (l rt : str) : option (nat * st) :=
  match matchAt r l rt with
  | Some y => Some (length l, y)
  | None =>
      match rt with
      | [] => None
      | c :: t => search r (c :: l) t
      end
  end.

(** The pieces of a text under a global regular expression: characters
    outside every match, and the successive matches.  After an empty match
    the search resumes one character further. *)
Inductive piece : Type :=
| Keep : ascii -> piece
| Hit : str -> st -> piece.   (* the matched text and the end of the match *)

Fixpoint pieces (r : regex) (skip : nat) (l rt : str) : list piece :=
  match skip, rt with
  | S k, c :: t => pieces r k (c :: l) t
  | S k, [] => []
  | 0, _ =>
      match matchAt r l rt with
      | None =>
          match rt with
          | [] => []
          | c :: t => Keep c :: pieces r 0 (c :: l) t
          end
      | Some y =>
          let n := length rt - length (right y) in
          Hit (firstn n rt) y ::
          match rt with
          | [] => []
          | c :: t =>
              match n with
              | 0 => Keep c :: pieces r 0 (c :: l) t
              | S m => pieces r m (c :: l) t
              end
          end
      end
  end.

Definition group (i : nat) (y : st) : option str :=
  option_map snd (find (fun p => fst p =? i) (caps y)).

(** [re.test(x)] *)
Definition test (r : regex) (x : str) : bool :=
  match search r [] x with Some _ => true | None => false end.

(** [x.match(re)] without the g flag: the end state of the first match. *)
Definition matchFirst (r : regex) (x : str) : option st :=
  option_map snd (search r [] x).

(** The successive matches of a global regular expression: the results of
    a [while ((m = re.exec(x)) !== null)] loop, and of [x.match(re)] with
    the g flag. *)
Definition matchAll (r : regex) (x : str) : list (str * st) :=
  flat_map (fun p => match p with Keep _ => [] | Hit w y => [(w, y)] end)
           (pieces r 0 [] x).

(** [x.replace(re, by)] with the g flag. *)
Definition render (by_ : str) (ps : list piece) : str :=
  flat_map (fun p => match p with Keep c => [c] | Hit _ _ => by_ end) ps.

Definition replaceAll (r : regex) (by_ : str) (x : str) : str :=
  render by_ (pieces r 0 [] x).

(** [x.replace(re, by)] without the g flag. *)
Definition replaceFirst (r : regex) (by_ : str) (x : str) : str :=
  match search r [] x with
  | None => x
  | Some (i, y) => firstn i x ++ by_ ++ right y
  end.

(** *** Pattern syntax *)

Definition chr (c : ascii) : regex := Cls (Ascii.eqb c).
(** A letter under the i flag. *)
Definition chri (c : ascii) : regex :=
  Cls (fun d => Ascii.eqb (JS.canon d) (JS.canon c)).

Fixpoint cat (l : list regex) : regex :=
  match l with
  | [] => Eps
  | [r] => r
  | r :: t => Cat r (cat t)
  end.

Fixpoint alt (l : list regex) : regex :=
  match l with
  | [] => Eps
  | [r] => r
  | r :: t => Alt r (alt t)
  end.

Definition lit (x : string) : regex := cat (map chr (js x)).
Definition liti (x : string) : regex := cat (map chri (js x)).

Definition star (r : regex) : regex := Rep true r.
Definition lazyStar (r : regex) : regex := Rep false r.
Definition plus (r : regex) : regex := Cat r (Rep true r).
Definition lazyPlus (r : regex) : regex := Cat r (Rep false r).

Definition dot : regex := Cls (fun c => negb (JS.isLineTerminator c)).
Definition anyChar : regex := Cls (fun _ => true).          (* [\s\S] *)
Definition space : regex := Cls JS.isSpace.                 (* \s *)
Definition digit : regex := Cls JS.isDigit.                 (* \d *)
Definition word : regex := Cls JS.isWord.                   (* \w *)
Definition notChr (c : ascii) : regex := Cls (fun d => negb (Ascii.eqb d c)).
(** [[a-zA-Z_]] and [[a-zA-Z0-9_]] *)
Definition identStart : regex :=
  Cls (fun c => JS.isAlpha c || (JS.code c =? 95)).
Definition identChar : regex := Cls JS.isWord.
(** [[a-zA-Z_][a-zA-Z0-9_]*] *)
Definition ident : regex := Cat identStart (star identChar).

End Regex.

Import Regex.

(** ** The validator *)

Record SchemaColumn : Type := mkColumn {
  column_name : str;
  data_type : str;
  is_nullable : str
}.

Record SchemaTable : Type := mkTable {
  table_name : str;
  columns : list SchemaColumn
}.

Inductive OperationType : Type :=
| SELECT | INSERT | UPDATE | DELETE | DDL | UNKNOWN.

Inductive RiskLevel : Type := safe | moderate | high | critical.

Record OperationAnalysis : Type := mkAnalysis {
  operation_type : OperationType;
  risk_level : RiskLevel;
  affected_tables : list str;
  affected_columns : list str;
  estimated_rows : str;              (* "single", "multiple", "all", "unknown" *)
  warnings : list str;
  requires_confirmation : bool
}.

(** The optional fields of the TypeScript interface are options: [None] is
    an absent field. *)
Record ValidationResult : Type := mkResult {
  is_valid : bool;
  reason : option str;
  sanitized_sql : option str;
  operation_analysis : option OperationAnalysis
}.

(** The type ['creator' | 'user'] of the [role] argument. *)
Inductive Role : Type := creator | user.

Definition roleName (r : Role) : str :=
  match r with
  | creator => js "creator"
  | user => js "user"
  end.

Definition opName (o : OperationType) : str :=
  match o with
  | SELECT => js "SELECT"
  | INSERT => js "INSERT"
  | UPDATE => js "UPDATE"
  | DELETE => js "DELETE"
  | DDL => js "DDL"
  | UNKNOWN => js "UNKNOWN"
  end.

Definition opEqb (a b : OperationType) : bool := JS.eqs (opName a) (opName b).

Definition ROLE_PERMISSIONS : list (str * list OperationType) :=
  [ (js "creator", [SELECT; INSERT; UPDATE; DELETE]);
    (js "user", [SELECT; INSERT; UPDATE; DELETE]) ].

(** [ROLE_PERMISSIONS[role]] *)
Definition lookup (key : str) (table : list (str * list OperationType))
  : option (list OperationType) :=
  option_map snd (find (fun p => JS.eqs (fst p) key) table).

Definition MAX_LIMIT : nat := 1000.
Definition DEFAULT_LIMIT : nat := 100.

Definition DDL_KEYWORDS : list string :=
  ["DROP"; "ALTER"; "TRUNCATE"; "CREATE"; "GRANT"; "REVOKE"]%string.

Definition BLOCKED_PATTERNS : list str :=
  map js ["INTO OUTFILE"; "INTO DUMPFILE"; "LOAD_FILE"; "EXECUTE"; "EXEC"]%string.

(** [/--.*$/gm], [/\/\*[\s\S]*?\*\//g] and [/#.*$/gm] *)
Definition lineComment : regex :=
  Cat (chr "-") (Cat (chr "-") (Cat (star dot) (Eol true))).
Definition blockComment : regex :=
  Cat (chr "/") (Cat (chr "*") (Cat (lazyStar anyChar) (Cat (chr "*") (chr "/")))).
Definition hashComment : regex :=
  Cat (chr "#") (Cat (star dot) (Eol true)).

Definition COMMENT_PATTERNS : list regex :=
  [lineComment; blockComment; hashComment].

Definition removeComments (sql : str) : str :=
  JS.trim
    (fold_left (fun cleaned pattern => replaceAll pattern (js " ") cleaned)
               COMMENT_PATTERNS sql).

(** [/'[^']*'/g] and the same with double quotes *)
Definition quoted (q : ascii) : regex :=
  cat [chr q; star (notChr q); chr q].

(** The fragments counted by [hasMultipleStatements]. *)
Definition statements (sql : str) : list str :=
  let cleaned := removeComments sql in
  let noStrings :=
    replaceAll (quoted dq) [] (replaceAll (quoted "'") [] cleaned) in
  filter (fun s => 0 <? length (JS.trim s)) (JS.split ";" noStrings).

Definition hasMultipleStatements (sql : str) : bool :=
  1 <? length (statements sql).

(** [^KEYWORD\b] and [\bKEYWORD\s+(TABLE|INDEX|VIEW|DATABASE)] with the i flag *)
Definition ddlLeading (keyword : string) : regex :=
  cat [Bol; lit keyword; Wb].
Definition ddlObject (keyword : string) : regex :=
  cat [Wb; liti keyword; plus space;
       Grp 1 (alt [liti "TABLE"; liti "INDEX"; liti "VIEW"; liti "DATABASE"])].

Definition detectOperationType (sql : str) : OperationType :=
  let cleaned := JS.trim (JS.toUpperCase (removeComments sql)) in
  if existsb (fun keyword => test (ddlLeading keyword) cleaned
                             || test (ddlObject keyword) cleaned) DDL_KEYWORDS
  then DDL
  else if JS.startsWith (js "SELECT") cleaned || JS.startsWith (js "WITH") cleaned
  then SELECT
  else if JS.startsWith (js "INSERT") cleaned then INSERT
  else if JS.startsWith (js "UPDATE") cleaned then UPDATE
  else if JS.startsWith (js "DELETE") cleaned then DELETE
  else UNKNOWN.

(** A [while ((match = re.exec(text)) !== null) set.add(match[1].toLowerCase())]
    loop. *)
Definition addMatches (r : regex) (text : str) (set : list str) : list str :=
  fold_left
    (fun acc m =>
       match group 1 (snd m) with
       | Some g => JS.setAdd acc (JS.toLowerCase g)
       | None => acc
       end)
    (matchAll r text) set.

(** [/\bFROM\s+(IDENT)/gi] and its four siblings, where IDENT stands for
    [[a-zA-Z_][a-zA-Z0-9_]*] *)
Definition fromRegex : regex := cat [Wb; liti "FROM"; plus space; Grp 1 ident].
Definition joinRegex : regex := cat [Wb; liti "JOIN"; plus space; Grp 1 ident].
Definition insertRegex : regex :=
  cat [Wb; liti "INSERT"; plus space; liti "INTO"; plus space; Grp 1 ident].
Definition updateRegex : regex := cat [Wb; liti "UPDATE"; plus space; Grp 1 ident].
Definition deleteRegex : regex :=
  cat [Wb; liti "DELETE"; plus space; liti "FROM"; plus space; Grp 1 ident].

Definition extractTableNames (sql : str) : list str :=
  let cleaned := removeComments sql in
  fold_left (fun tables r => addMatches r cleaned tables)
            [fromRegex; joinRegex; insertRegex; updateRegex; deleteRegex] [].

(** [/SELECT\s+([\s\S]+?)\s+FROM/i] *)
Definition selectListRegex : regex :=
  cat [liti "SELECT"; plus space; Grp 1 (lazyPlus anyChar); plus space; liti "FROM"].
(** [/^(IDENT)/] *)
Definition leadingIdent : regex := cat [Bol; Grp 1 ident].
(** [/INSERT\s+INTO\s+\w+\s*\(([^)]+)\)/i] *)
Definition insertColumnsRegex : regex :=
  cat [liti "INSERT"; plus space; liti "INTO"; plus space; plus word; star space;
       chr "("; Grp 1 (plus (notChr ")")); chr ")"].
(** [/SET\s+([\s\S]+?)(?:WHERE|$)/i] *)
Definition setClauseRegex : regex :=
  cat [liti "SET"; plus space; Grp 1 (lazyPlus anyChar);
       Alt (liti "WHERE") (Eol false)].
(** [/(IDENT)\s*=/gi] *)
Definition setRegex : regex := cat [Grp 1 ident; star space; chr "="].
(** [/WHERE\s+([\s\S]+?)(?:ORDER|GROUP|LIMIT|$)/i] *)
Definition whereClauseRegex : regex :=
  cat [liti "WHERE"; plus space; Grp 1 (lazyPlus anyChar);
       alt [liti "ORDER"; liti "GROUP"; liti "LIMIT"; Eol false]].
(** [/(IDENT)\s*(?:=|<|>|LIKE|IN|IS|BETWEEN)/gi] *)
Definition colRegex : regex :=
  cat [Grp 1 ident; star space;
       alt [chr "="; chr "<"; chr ">"; liti "LIKE"; liti "IN"; liti "IS";
            liti "BETWEEN"]].

Definition capture1 (r : regex) (text : str) : option str :=
  match matchFirst r text with
  | Some m => group 1 m
  | None => None
  end.

Definition extractColumnNames (sql : str) : list str :=
  let cleaned := removeComments sql in
  let columns : list str := [] in
  (* SELECT columns *)
  let columns :=
    match capture1 selectListRegex cleaned with
    | Some list =>
        if negb (JS.eqs (JS.trim list) (js "*")) then
          fold_left
            (fun acc part =>
               match capture1 leadingIdent (JS.trim part) with
               | Some col => JS.setAdd acc (JS.toLowerCase col)
               | None => acc
               end)
            (JS.split "," list) columns
        else columns
    | None => columns
    end in
  (* INSERT columns *)
  let columns :=
    match capture1 insertColumnsRegex cleaned with
    | Some list =>
        fold_left JS.setAdd
                  (map (fun c => JS.toLowerCase (JS.trim c)) (JS.split "," list))
                  columns
    | None => columns
    end in
  (* UPDATE SET columns *)
  let columns :=
    match capture1 setClauseRegex cleaned with
    | Some setClause => addMatches setRegex setClause columns
    | None => columns
    end in
  (* WHERE clause columns *)
  let columns :=
    match capture1 whereClauseRegex cleaned with
    | Some whereClause => addMatches colRegex whereClause columns
    | None => columns
    end in
  columns.

(** [/\),\s*\(/g] *)
Definition tupleSeparator : regex := cat [chr ")"; chr ","; star space; chr "("].

Definition analyzeOperation (sql : str) (schema : list SchemaTable)
  : OperationAnalysis :=
  let opType := detectOperationType sql in
  let tables := extractTableNames sql in
  let columns := extractColumnNames sql in
  let upperSQL := JS.toUpperCase sql in
  let '(riskLevel, estimatedRows, requiresConfirmation, warnings) :=
    match opType with
    | SELECT => (safe, js "multiple", false, [])
    | INSERT =>
        let warnings := [js "This will add new records to the database."] in
        if JS.includes (js "VALUES") upperSQL then
          let valuesCount := length (matchAll tupleSeparator upperSQL) + 1 in
          (moderate,
           if valuesCount =? 1 then js "single" else js "multiple",
           true,
           warnings ++ [js "Inserting " ++ JS.ofNat valuesCount ++ js " row(s)."])
        else if JS.includes (js "SELECT") upperSQL then
          (high, js "multiple", true,
           warnings ++ [js "INSERT from SELECT may affect many rows."])
        else (moderate, js "unknown", true, warnings)
    | UPDATE =>
        if negb (JS.includes (js "WHERE") upperSQL) then
          (critical, js "all", true,
           [js "⚠️ NO WHERE CLAUSE - This will update ALL rows in the table!"])
        else
          let warnings := [js "This will modify existing records."] in
          if JS.includes (js "WHERE 1=1") upperSQL
             || JS.includes (js "WHERE TRUE") upperSQL
          then (critical, js "all", true,
                warnings ++ [js "⚠️ WHERE clause matches ALL rows!"])
          else (high, js "multiple", true, warnings)
    | DELETE =>
        if negb (JS.includes (js "WHERE") upperSQL) then
          (critical, js "all", true,
           [js "⚠️ NO WHERE CLAUSE - This will DELETE ALL rows in the table!"])
        else
          let warnings := [js "This will permanently delete records."] in
          if JS.includes (js "WHERE 1=1") upperSQL
             || JS.includes (js "WHERE TRUE") upperSQL
          then (critical, js "all", true,
                warnings ++ [js "⚠️ WHERE clause matches ALL rows!"])
          else (high, js "multiple", true, warnings)
    | DDL =>
        (critical, js "unknown", true, [js "DDL operations are blocked for safety."])
    | UNKNOWN =>
        (high, js "unknown", true, [js "Unknown operation type detected."])
    end in
  {| operation_type := opType;
     risk_level := riskLevel;
     affected_tables := tables;
     affected_columns := columns;
     estimated_rows := estimatedRows;
     warnings := warnings;
     requires_confirmation := requiresConfirmation |}.

Definition hasBlockedPatterns (sql : str) : option str :=
  let upper := JS.toUpperCase sql in
  find (fun pattern => JS.includes pattern upper) BLOCKED_PATTERNS.

(** [/\bLIMIT\s+(\d+)/i], [/\bLIMIT\s+\d+/i] and [/;*\s*$/] *)
Definition limitRegex : regex :=
  cat [Wb; liti "LIMIT"; plus space; Grp 1 (plus digit)].
Definition limitClause : regex :=
  cat [Wb; liti "LIMIT"; plus space; plus digit].
Definition trailingSemicolons : regex :=
  cat [star (chr ";"); star space; Eol false].

Definition enforceLimit (sql : str) : str :=
  let cleaned := JS.trim sql in
  match capture1 limitRegex sql with
  | Some digits =>
      let limit := JS.parseInt digits in
      if MAX_LIMIT <? limit
      then replaceFirst limitClause (js "LIMIT " ++ JS.ofNat MAX_LIMIT) cleaned
      else cleaned
  | None =>
      (* Only add LIMIT to SELECT queries *)
      match detectOperationType sql with
      | SELECT =>
          let withoutSemicolon := replaceFirst trailingSemicolons [] cleaned in
          withoutSemicolon ++ js " LIMIT " ++ JS.ofNat DEFAULT_LIMIT
      | _ => cleaned
      end
  end.

Definition reject (why : str) : ValidationResult :=
  {| is_valid := false; reason := Some why;
     sanitized_sql := None; operation_analysis := None |}.

Definition quote (x : str) : str := [dq] ++ x ++ [dq].

Definition skipList : list str :=
  map js ["count"; "sum"; "avg"; "max"; "min"; "now"; "current_timestamp"; "id"]%string.

(** The rejection reasons. *)
Definition emptyMessage : str := js "Query cannot be empty.".
Definition multipleMessage : str :=
  js "Multiple SQL statements are not allowed. Please submit one query at a time.".
Definition blockedMessage (blockedPattern : str) : str :=
  js "Blocked pattern detected: " ++ quote blockedPattern
  ++ js ". This operation is not permitted.".
Definition ddlMessage : str :=
  js "DDL operations (CREATE, DROP, ALTER, TRUNCATE) are not allowed. Only data operations are permitted.".
Definition roleMessage (opType : OperationType) (role : Role)
           (allowedOps : list OperationType) : str :=
  js "Operation " ++ quote (opName opType)
  ++ js " is not allowed for role " ++ quote (roleName role)
  ++ js ". Allowed operations: "
  ++ JS.join (js ", ") (map opName allowedOps) ++ js ".".
Definition tableMessage (table : str) (schemaTableNames : list str) : str :=
  js "Table " ++ quote table ++ js " does not exist. Available tables: "
  ++ JS.join (js ", ") schemaTableNames ++ js ".".
Definition deniedMessage (table : str) : str :=
  js "Access denied: Table " ++ quote table
  ++ js " is not accessible with your permissions.".
Definition columnMessage (column : str) (columnsInQueryTables : list str) : str :=
  js "Column " ++ quote column
  ++ js " does not exist in the queried table(s). Available: "
  ++ JS.join (js ", ") (firstn 5 columnsInQueryTables) ++ js "...".

(** [ROLE_PERMISSIONS[role] || ['SELECT']] *)
Definition allowedOpsOf (role : Role) : list OperationType :=
  match lookup (roleName role) ROLE_PERMISSIONS with
  | Some ops => ops
  | None => [SELECT]
  end.

Definition accept (sanitizedSQL : str) (analysis : OperationAnalysis)
  : ValidationResult :=
  {| is_valid := true; reason := None;
     sanitized_sql := Some sanitizedSQL;
     operation_analysis := Some analysis |}.

Definition validateSQL (sql : str) (schema : list SchemaTable) (role : Role)
           (allowedTables : option (list str)) : ValidationResult :=
  (* Step 1: Empty check *)
  if length (JS.trim sql) =? 0 then reject emptyMessage
  else
  let cleaned := removeComments sql in
  (* Step 2: Multiple statements check *)
  if hasMultipleStatements cleaned then reject multipleMessage
  else
  (* Step 3: Blocked patterns check *)
  match hasBlockedPatterns cleaned with
  | Some blockedPattern => reject (blockedMessage blockedPattern)
  | None =>
  (* Step 4: Detect operation type *)
  let opType := detectOperationType cleaned in
  (* Step 5: Check if DDL (always blocked) *)
  if opEqb opType DDL then reject ddlMessage
  else
  (* Step 6: Check role permissions *)
  let allowedOps := allowedOpsOf role in
  if negb (existsb (opEqb opType) allowedOps)
  then reject (roleMessage opType role allowedOps)
  else
  (* Step 7: Validate table names *)
  let referencedTables := extractTableNames cleaned in
  let schemaTableNames := map (fun t => JS.toLowerCase (table_name t)) schema in
  match find (fun table => negb (JS.member table schemaTableNames))
             referencedTables with
  | Some table => reject (tableMessage table schemaTableNames)
  | None =>
  (* Step 8: Role-based table access for users *)
  match
    match role, allowedTables with
    | user, Some allowed =>
        let allowedLower := map JS.toLowerCase allowed in
        find (fun table => negb (JS.member table allowedLower)) referencedTables
    | _, _ => None
    end
  with
  | Some table => reject (deniedMessage table)
  | None =>
  (* Step 9: Column validation (for referenced columns) *)
  let referencedColumns := extractColumnNames cleaned in
  let tablesInQuery :=
    filter (fun t => JS.member (JS.toLowerCase (table_name t)) referencedTables)
           schema in
  let columnsInQueryTables :=
    flat_map (fun t => map (fun c => JS.toLowerCase (column_name c)) (columns t))
             tablesInQuery in
  match find (fun column =>
                negb (JS.member column skipList)
                && ((0 <? length columnsInQueryTables)
                    && negb (JS.member column columnsInQueryTables)))
             referencedColumns with
  | Some column => reject (columnMessage column columnsInQueryTables)
  | None =>
  (* Step 10: Apply LIMIT enforcement (SELECT only) *)
  let sanitizedSQL := enforceLimit cleaned in
  (* Step 11: Analyze operation for risk assessment *)
  let analysis := analyzeOperation cleaned schema in
  accept sanitizedSQL analysis
  end end end end.

(** The demo schema of the [validate-query] handler. *)
Definition col (name type nullable : string) : SchemaColumn :=
  mkColumn (js name) (js type) (js nullable).

Definition demoSchema : list SchemaTable :=
  [ mkTable (js "demo_users")
      [col "id" "uuid" "NO"; col "email" "varchar" "NO";
       col "name" "varchar" "YES"; col "created_at" "timestamp" "NO"];
    mkTable (js "demo_orders")
      [col "id" "uuid" "NO"; col "user_id" "uuid" "NO";
       col "total_amount" "numeric" "NO"; col "status" "varchar" "NO";
       col "created_at" "timestamp" "NO"];
    mkTable (js "demo_products")
      [col "id" "uuid" "NO"; col "name" "varchar" "NO";
       col "price" "numeric" "NO"; col "category" "varchar" "YES";
       col "in_stock" "boolean" "NO"] ].

(** ** The rest of the validator module *)

Definition riskName (r : RiskLevel) : str :=
  match r with
  | safe => js "safe"
  | moderate => js "moderate"
  | high => js "high"
  | critical => js "critical"
  end.

Definition safeExplanation : str := js "Query is valid and safe to execute.".
Definition blockedFallback : str := js "Query was blocked for security reasons.".

(** [reason || fallback]: an absent or empty reason gives the fallback. *)
Definition getBlockedExplanation (result : ValidationResult) : str :=
  if is_valid result then
    match operation_analysis result with
    | Some analysis =>
        if requires_confirmation analysis then
          js "Query is valid but requires confirmation. Risk level: "
          ++ JS.toUpperCase (riskName (risk_level analysis)) ++ js ". "
          ++ JS.join (js " ") (warnings analysis)
        else safeExplanation
    | None => safeExplanation
    end
  else
    match reason result with
    | Some (c :: r) => c :: r
    | _ => blockedFallback
    end.

(** ** The [validate-query] handler, from the parsed request body on *)

Module ValidateQuery.

Record Request : Type := mkRequest {
  sql : option str;
  role : option Role;
  schema : option (list SchemaTable);
  allowed_tables : option (list str)
}.

Record Response : Type := mkResponse {
  is_valid : bool;
  sanitized_sql : option str;
  explanation : str;
  blocked_reason : option str;
  checks_performed : list str
}.

Definition defaultAllowedTables : list str := [js "demo_users"; js "demo_products"].

Definition checksPerformed : list str :=
  map js ["empty_query_check"; "multiple_statements_check"; "select_only_check";
          "dangerous_keywords_check"; "table_existence_check";
          "column_existence_check"; "role_access_check"; "limit_enforcement"]%string.

Definition respond (body : Request) : Response :=
  match sql body with
  | None =>
      mkResponse false None (js "No SQL query provided.")
                 (Some (js "Query cannot be empty.")) [js "empty_check"]
  | Some q =>
      if length (JS.trim q) =? 0 then
        mkResponse false None (js "No SQL query provided.")
                   (Some (js "Query cannot be empty.")) [js "empty_check"]
      else
        let role := match role body with Some r => r | None => user end in
        let schema := match schema body with Some s => s | None => demoSchema end in
        let allowedTables :=
          match allowed_tables body with
          | Some a => a
          | None => defaultAllowedTables
          end in
        let validationResult := validateSQL q schema role (Some allowedTables) in
        match validationResult with
        | mkResult valid why sanitized _ =>
            mkResponse valid sanitized
                       (getBlockedExplanation validationResult)
                       (if valid then None else why)
                       checksPerformed
        end
  end.

End ValidateQuery.

(** ** The [generate-query] handler: the action type of a statement *)

Inductive ActionType : Type := READ | WRITE | STRUCTURAL | DESTRUCTIVE | UNKNOWN_ACTION.

Definition determineActionType (sql : str) : ActionType :=
  match detectOperationType sql with
  | SELECT => READ
  | INSERT => WRITE
  | UPDATE => WRITE
  | DELETE => DESTRUCTIVE
  | DDL => STRUCTURAL
  | UNKNOWN => UNKNOWN_ACTION
  end.

(** ** The [execute-query] handler, up to the database call *)

Module ExecuteQuery.

(** The optional flags [confirmed] and [skip_revalidation] are false when
    absent. *)
Record Request : Type := mkRequest {
  sql : option str;
  role : option Role;
  schema : option (list SchemaTable);
  confirmed : bool;
  skip_revalidation : bool
}.

Definition MAX_ROWS : nat := 1000.

Definition DEFAULT_SCHEMA : list SchemaTable :=
  [ mkTable (js "demo_users")
      [col "id" "uuid" "NO"; col "email" "varchar" "NO";
       col "name" "varchar" "YES"; col "status" "varchar" "YES";
       col "created_at" "timestamp" "NO"];
    mkTable (js "demo_orders")
      [col "id" "uuid" "NO"; col "user_id" "uuid" "YES";
       col "total_amount" "numeric" "NO"; col "status" "varchar" "YES";
       col "created_at" "timestamp" "NO"];
    mkTable (js "demo_products")
      [col "id" "uuid" "NO"; col "name" "varchar" "NO";
       col "price" "numeric" "NO"; col "category" "varchar" "YES";
       col "in_stock" "boolean" "YES"; col "created_at" "timestamp" "NO"] ].

(** [/INSERT\s+INTO\s+(IDENT)/i], [/UPDATE\s+(IDENT)/i],
    [/DELETE\s+FROM\s+(IDENT)/i] and [/FROM\s+(IDENT)/i] *)
Definition insertInto : regex :=
  cat [liti "INSERT"; plus space; liti "INTO"; plus space; Grp 1 ident].
Definition updateTable : regex := cat [liti "UPDATE"; plus space; Grp 1 ident].
Definition deleteFrom : regex :=
  cat [liti "DELETE"; plus space; liti "FROM"; plus space; Grp 1 ident].
Definition fromTable : regex := cat [liti "FROM"; plus space; Grp 1 ident].

Definition extractPrimaryTable (sql : str) : option str :=
  match capture1 insertInto sql with
  | Some table => Some (JS.toLowerCase table)
  | None =>
  match capture1 updateTable sql with
  | Some table => Some (JS.toLowerCase table)
  | None =>
  match capture1 deleteFrom sql with
  | Some table => Some (JS.toLowerCase table)
  | None =>
  match capture1 fromTable sql with
  | Some table => Some (JS.toLowerCase table)
  | None => None
  end end end end.

(** What the handler does with a request before any branch-specific parsing
    and before the database is called: a 400 response, the request for a
    confirmation, an error thrown inside the handler (a 500 response), or the
    entry into the branch of the operation type with the table to use. *)
Inductive Outcome : Type :=
| BadRequest : str -> Outcome
| NeedsConfirmation : OperationType -> OperationAnalysis -> str -> Outcome
| Thrown : str -> Outcome
| ToDatabase : OperationType -> str -> OperationAnalysis -> Outcome.

Definition confirmationWarning (opType : OperationType)
           (analysis : OperationAnalysis) : str :=
  js "This " ++ opName opType
  ++ js " operation requires explicit confirmation. Risk level: "
  ++ JS.toUpperCase (riskName (risk_level analysis)).

Definition route (body : Request) : Outcome :=
  match sql body with
  | None => BadRequest (js "sql is required")
  | Some q =>
  if length (JS.trim q) =? 0 then BadRequest (js "sql is required")
  else
  let role := match role body with Some r => r | None => user end in
  let schema := match schema body with Some s => s | None => DEFAULT_SCHEMA end in
  (* Validate the query *)
  match
    (if negb (skip_revalidation body) then
       let validationResult := validateSQL q schema role None in
       if negb (is_valid validationResult) then
         Some (js "Query failed validation: "
               ++ match reason validationResult with
                  | Some r => r
                  | None => js "undefined"
                  end)
       else None
     else None)
  with
  | Some message => BadRequest message
  | None =>
  (* Detect operation type and analyze *)
  let opType := detectOperationType q in
  let analysis := analyzeOperation q schema in
  (* Check if confirmation is required for write operations *)
  if requires_confirmation analysis && negb (confirmed body) then
    NeedsConfirmation opType analysis (confirmationWarning opType analysis)
  else
  let tableName := extractPrimaryTable q in
  (* Execute based on operation type *)
  match opType with
  | SELECT | INSERT | UPDATE | DELETE =>
      match tableName with
      | Some (c :: t) => ToDatabase opType (c :: t) analysis
      | _ => Thrown (js "Could not determine table from query")
      end
  | _ => Thrown (js "Unsupported operation type: " ++ opName opType)
  end
  end
  end.

End ExecuteQuery.

(** ** Notions used in the statements *)

(** The lower-cased column names of the schema tables that a statement
    references: [columnsInQueryTables] of [validateSQL]. *)
Definition queriedColumns (schema : list SchemaTable) (tables : list str)
  : list str :=
  flat_map (fun t => map (fun c => JS.toLowerCase (column_name c)) (columns t))
           (filter (fun t => JS.member (JS.toLowerCase (table_name t)) tables)
                   schema).

(** No comment pattern matches anywhere in the text. *)
Definition commentFree (x : str) : bool :=
  forallb (fun pattern => negb (test pattern x)) COMMENT_PATTERNS.

(** A [/*] at the head of the text, closed by a later [*/]. *)
Definition opensBlock (rt : str) : bool :=
  JS.startsWith (js "/*") rt && JS.includes (js "*/") (skipn 2 rt).

(** Some [/*] of the text is followed, after it, by a [*/]. *)
Fixpoint hasBlock (x : str) : bool :=
  match x with
  | [] => false
  | _ :: t =>
      opensBlock x || hasBlock t
  end.

(** The text shows none of the three marks of a comment. *)
Definition clean (x : str) : Prop :=
  JS.includes (js "--") x = false /\ hasBlock x = false
  /\ JS.includes (js "#") x = false.

(** No character of the text can start or end a comment. *)
Definition inert (x : str) : bool :=
  forallb (fun c => negb (Ascii.eqb c "-" || Ascii.eqb c "/"
                          || Ascii.eqb c "*" || Ascii.eqb c "#")) x.

(** [blank a b]: [b] is [a] with some stretches replaced by one space each. *)
Inductive blank : str -> str -> Prop :=
| blank_nil : blank [] []
| blank_keep c a b : blank a b -> blank (c :: a) (c :: b)
| blank_hit n a b : blank (skipn n a) b -> blank a (" "%char :: b).

(** A character map applied to a match position and to a piece, and the
    patterns whose classes cannot tell a character from its image. *)
Definition mapSt (f : ascii -> ascii) (x : st) : st :=
  mkSt (map f (left x)) (map f (right x))
       (map (fun p => (fst p, map f (snd p))) (caps x)).

Definition mapPiece (f : ascii -> ascii) (p : piece) : piece :=
  match p with
  | Keep c => Keep (f c)
  | Hit w y => Hit (map f w) (mapSt f y)
  end.

Fixpoint stable (f : ascii -> ascii) (r : regex) : Prop :=
  match r with
  | Cls p => forall c, p (f c) = p c
  | Cat a b | Alt a b => stable f a /\ stable f b
  | Rep _ a | Grp _ a => stable f a
  | _ => True
  end.

(** [toLowerCase] of a code unit of ASCII, and no change outside ASCII. *)
Definition asciiLower (c : ascii) : ascii :=
  if JS.isAscii c then JS.lower c else c.

(** The text is an identifier: [[a-zA-Z_][a-zA-Z0-9_]*] matches all of it. *)
Definition isIdentifier (t : str) : bool :=
  match t with
  | c :: r => (JS.isAlpha c || (JS.code c =? 95)) && forallb JS.isWord r
  | [] => false
  end.

(** * Properties *)

(** ** Text lemmas *)

Section Text.

Lemma dropWhile_suffix p x : exists w, x = w ++ JS.dropWhile p x /\ forallb p w = true.
Proof.
  induction x as [|c t [w [Hw Hp]]]; simpl.
  - exists []. auto.
  - destruct (p c) eqn:E.
    + exists (c :: w). simpl. rewrite E, Hp. split; [now f_equal | reflexivity].
    + exists []. auto.
Qed.

Lemma dropWhile_all p x : forallb p x = true -> JS.dropWhile p x = [].
Proof.
  induction x as [|c t IH]; simpl; auto.
  destruct (p c); simpl; auto. discriminate.
Qed.

Lemma dropWhile_head p x c t : JS.dropWhile p x = c :: t -> p c = false.
Proof.
  induction x as [|d u IH]; simpl; [discriminate|].
  destruct (p d) eqn:E; auto. intros H. injection H as -> _. exact E.
Qed.

Lemma dropWhile_fix p x :
  match x with [] => True | c :: _ => p c = false end -> JS.dropWhile p x = x.
Proof. destruct x as [|c t]; simpl; auto. now intros ->. Qed.

(** [trim x] is a substring of [x], between two runs of white space. *)
Lemma trim_decompose x :
  exists a b, x = a ++ JS.trim x ++ b
              /\ forallb JS.isSpace a = true /\ forallb JS.isSpace b = true.
Proof.
  unfold JS.trim, JS.trimEnd, JS.trimStart.
  destruct (dropWhile_suffix JS.isSpace x) as [a [Ha Pa]].
  destruct (dropWhile_suffix JS.isSpace (rev (JS.dropWhile JS.isSpace x)))
    as [b [Hb Pb]].
  exists a, (rev b). repeat split; auto.
  - rewrite <- rev_app_distr, <- Hb, rev_involutive. exact Ha.
  - rewrite forallb_forall in *. intros c Hc. apply Pb. now apply in_rev.
Qed.

Lemma trimEnd_fix x :
  match rev x with [] => True | c :: _ => JS.isSpace c = false end ->
  JS.trimEnd x = x.
Proof.
  intros H. unfold JS.trimEnd. rewrite dropWhile_fix by exact H.
  apply rev_involutive.
Qed.

Lemma trim_idem x : JS.trim (JS.trim x) = JS.trim x.
Proof.
  unfold JS.trim at 1.
  assert (H1 : JS.trimStart (JS.trim x) = JS.trim x).
  { unfold JS.trimStart. apply dropWhile_fix.
    unfold JS.trim, JS.trimEnd, JS.trimStart.
    destruct (JS.dropWhile JS.isSpace x) as [|c t] eqn:E; [exact I|].
    pose proof (dropWhile_head _ _ E) as Hc.
    destruct (dropWhile_suffix JS.isSpace (rev (c :: t))) as [w [Hw Pw]].
    remember (JS.dropWhile JS.isSpace (rev (c :: t))) as z.
    assert (Hct : c :: t = rev z ++ rev w).
    { rewrite <- rev_app_distr, <- Hw. now rewrite rev_involutive. }
    destruct (rev z) as [|d u] eqn:Ez; [exact I|].
    simpl in Hct. injection Hct as <- _. exact Hc. }
  rewrite H1. apply trimEnd_fix.
  unfold JS.trim, JS.trimEnd. rewrite rev_involutive.
  destruct (JS.dropWhile JS.isSpace (rev (JS.trimStart x))) as [|c t] eqn:E;
    [exact I|].
  exact (dropWhile_head _ _ E).
Qed.

Lemma trim_nil_all_space x : JS.trim x = [] -> forallb JS.isSpace x = true.
Proof.
  intros H. destruct (trim_decompose x) as [a [b [E [Pa Pb]]]].
  rewrite H in E. rewrite E. simpl. rewrite forallb_app. now rewrite Pa, Pb.
Qed.

Lemma startsWith_app p x y : JS.startsWith p x = true -> JS.startsWith p (x ++ y) = true.
Proof.
  revert x. induction p as [|a p IH]; intros [|b x]; simpl; auto; try discriminate.
  intros H. apply andb_true_iff in H as [H1 H2]. now rewrite H1, IH.
Qed.

Lemma includes_app_r p x y : JS.includes p y = true -> JS.includes p (x ++ y) = true.
Proof. induction x; simpl; auto. intros H. rewrite (IHx H). apply orb_true_r. Qed.

Lemma includes_app_l p x y : JS.includes p x = true -> JS.includes p (x ++ y) = true.
Proof.
  induction x as [|c t IH].
  - simpl. rewrite orb_false_r. destruct p; [|discriminate]. intros _.
    destruct y; reflexivity.
  - cbn [JS.includes app]. intros H. apply orb_true_iff in H as [H|H];
      apply orb_true_iff.
    + left. exact (startsWith_app p (c :: t) y H).
    + right. exact (IH H).
Qed.

Lemma includes_skipn p n x : JS.includes p (skipn n x) = true -> JS.includes p x = true.
Proof.
  intros H. rewrite <- (firstn_skipn n x). now apply includes_app_r.
Qed.

(** A substring free of [p] pieces: no [p] in the middle of a text without [p]. *)
Lemma includes_middle p a m b :
  JS.includes p (a ++ m ++ b) = false -> JS.includes p m = false.
Proof.
  intros H. destruct (JS.includes p m) eqn:E; auto.
  rewrite includes_app_r in H; [discriminate|]. now apply includes_app_l.
Qed.

End Text.

(** ** The matcher on the comment patterns *)

Section MatcherEquations.

Variables (k : st -> option st) (x : st).

Lemma mt_cls p :
  mt (Cls p) k x =
  match right x with
  | c :: t => if p c then k (mkSt (c :: left x) t (caps x)) else None
  | [] => None
  end.
Proof. reflexivity. Qed.

Lemma mt_chr c :
  mt (chr c) k x =
  match right x with
  | d :: t => if Ascii.eqb c d then k (mkSt (d :: left x) t (caps x)) else None
  | [] => None
  end.
Proof. reflexivity. Qed.

Lemma mt_any :
  mt anyChar k x =
  match right x with
  | c :: t => k (mkSt (c :: left x) t (caps x))
  | [] => None
  end.
Proof. reflexivity. Qed.

Lemma mt_dot :
  mt dot k x =
  match right x with
  | c :: t => if negb (JS.isLineTerminator c)
              then k (mkSt (c :: left x) t (caps x)) else None
  | [] => None
  end.
Proof. reflexivity. Qed.

Lemma mt_cat a b : mt (Cat a b) k x = mt a (mt b k) x.
Proof. reflexivity. Qed.

Lemma mt_alt a b : mt (Alt a b) k x = orElse (mt a k x) (mt b k x).
Proof. reflexivity. Qed.

Lemma mt_rep g a : mt (Rep g a) k x = rep (mt a) g k (S (length (right x))) x.
Proof. reflexivity. Qed.

Lemma mt_eol m : mt (Eol m) k x = if atEnd m x then k x else None.
Proof. reflexivity. Qed.

End MatcherEquations.

Section CommentPatterns.

(** [.*$] under the m flag always succeeds: it stops before the line end. *)
Lemma rep_dot_eol n x :
  length (right x) < n ->
  exists y, rep (mt dot) true (mt (Eol true) Some) n x = Some y.
Proof.
  revert x. induction n as [|n IH]; intros x Hn; [lia|].
  destruct x as [l rt cs]. cbn [rep]. rewrite mt_dot.
  cbn [right left caps] in *.
  destruct rt as [|c t].
  - cbn. eauto.
  - destruct (negb (JS.isLineTerminator c)) eqn:E.
    + cbn [length]. rewrite (proj2 (Nat.ltb_lt _ _)) by lia.
      destruct (IH (mkSt (c :: l) t cs)) as [y Hy]; [cbn in *; lia|].
      rewrite Hy. cbn. eauto.
    + cbn. apply negb_false_iff in E. rewrite E. cbn. eauto.
Qed.

Lemma lineComment_none l rt :
  JS.startsWith (js "--") rt = false -> matchAt lineComment l rt = None.
Proof.
  unfold matchAt, lineComment. rewrite mt_cat, mt_chr. cbn [right].
  destruct rt as [|a [|b t]]; cbn [JS.startsWith js list_ascii_of_string]; auto.
  - destruct (Ascii.eqb "-" a); auto.
  - destruct (Ascii.eqb "-" a); auto. rewrite mt_cat, mt_chr. cbn [right].
    destruct (Ascii.eqb "-" b); auto. discriminate.
Qed.

Lemma lineComment_some l rt :
  JS.startsWith (js "--") rt = true -> exists y, matchAt lineComment l rt = Some y.
Proof.
  unfold matchAt, lineComment. rewrite mt_cat, mt_chr. cbn [right].
  destruct rt as [|a [|b t]]; cbn [JS.startsWith js list_ascii_of_string];
    try discriminate.
  - destruct (Ascii.eqb "-" a); discriminate.
  - destruct (Ascii.eqb "-" a); [|discriminate].
    rewrite mt_cat, mt_chr. cbn [right].
    destruct (Ascii.eqb "-" b); [|discriminate]. intros _.
    rewrite mt_cat. unfold star. rewrite mt_rep.
    apply rep_dot_eol. cbn. lia.
Qed.

Lemma hashComment_none l rt :
  JS.startsWith (js "#") rt = false -> matchAt hashComment l rt = None.
Proof.
  unfold matchAt, hashComment. rewrite mt_cat, mt_chr. cbn [right].
  destruct rt as [|a t]; cbn [JS.startsWith js list_ascii_of_string]; auto.
  destruct (Ascii.eqb "#" a); auto. discriminate.
Qed.

Lemma hashComment_some l rt :
  JS.startsWith (js "#") rt = true -> exists y, matchAt hashComment l rt = Some y.
Proof.
  unfold matchAt, hashComment. rewrite mt_cat, mt_chr. cbn [right].
  destruct rt as [|a t]; cbn [JS.startsWith js list_ascii_of_string];
    try discriminate.
  destruct (Ascii.eqb "#" a); [|discriminate]. intros _.
  rewrite mt_cat. unfold star. rewrite mt_rep.
  apply rep_dot_eol. cbn. lia.
Qed.

(** [[\s\S]*?\*\/] succeeds exactly when a [*/] lies ahead. *)
Lemma rep_any_close n x :
  length (right x) < n ->
  (JS.includes (js "*/") (right x) = true ->
   exists y, rep (mt anyChar) false (mt (Cat (chr "*") (chr "/")) Some) n x = Some y)
  /\ (JS.includes (js "*/") (right x) = false ->
      rep (mt anyChar) false (mt (Cat (chr "*") (chr "/")) Some) n x = None).
Proof.
  revert x. induction n as [|n IH]; intros x Hn; [lia|].
  destruct x as [l rt cs]. cbn [right] in *.
  cbn [rep]. rewrite mt_any, mt_cat, mt_chr. cbn [right left caps].
  destruct rt as [|c t].
  - cbn. split; [discriminate|auto].
  - cbn [length] in Hn.
    cbn [length]. rewrite (proj2 (Nat.ltb_lt (length t) (S (length t)))) by lia.
    destruct (IH (mkSt (c :: l) t cs)) as [IH1 IH2]; [cbn; lia|].
    cbn [right] in IH1, IH2.
    cbn [JS.includes JS.startsWith js list_ascii_of_string].
    destruct (Ascii.eqb "*" c) eqn:Ec; cbn [andb orb orElse].
    + rewrite mt_chr. cbn [right]. destruct t as [|d u]; cbn [orElse andb orb].
      * split; [intros H|intros H]; [exact (IH1 H)| exact (IH2 H)].
      * destruct (Ascii.eqb "/" d) eqn:Ed; cbn [orElse andb orb].
        -- split; [eauto|discriminate].
        -- split; [intros H; exact (IH1 H)| intros H; exact (IH2 H)].
    + split; [intros H; exact (IH1 H)| intros H; exact (IH2 H)].
Qed.

Lemma blockComment_none l rt :
  opensBlock rt = false -> matchAt blockComment l rt = None.
Proof.
  unfold opensBlock, matchAt, blockComment. rewrite mt_cat, mt_chr.
  cbn [right left caps].
  destruct rt as [|a [|b t]]; cbn [JS.startsWith js list_ascii_of_string]; auto.
  - now destruct (Ascii.eqb "/" a).
  - destruct (Ascii.eqb "/" a); cbn [andb]; auto.
    rewrite mt_cat, mt_chr. cbn [right left caps].
    destruct (Ascii.eqb "*" b); cbn [andb skipn]; auto.
    intros H. rewrite mt_cat. unfold lazyStar. rewrite mt_rep.
    apply rep_any_close; cbn; auto.
Qed.

Lemma blockComment_some l rt :
  opensBlock rt = true -> exists y, matchAt blockComment l rt = Some y.
Proof.
  unfold opensBlock, matchAt, blockComment. rewrite mt_cat, mt_chr.
  cbn [right left caps].
  destruct rt as [|a [|b t]]; cbn [JS.startsWith js list_ascii_of_string];
    try discriminate.
  - now destruct (Ascii.eqb "/" a).
  - destruct (Ascii.eqb "/" a); cbn [andb]; try discriminate.
    rewrite mt_cat, mt_chr. cbn [right left caps].
    destruct (Ascii.eqb "*" b); cbn [andb skipn]; try discriminate.
    intros H. rewrite mt_cat. unfold lazyStar. rewrite mt_rep.
    apply rep_any_close; cbn; auto.
Qed.

End CommentPatterns.

(** ** General facts about the matcher *)

Section MatcherFacts.

(** The repetition counter is never the reason a repetition stops: a
    continuation is only reached further on in the text, and any count above
    the length of the text ahead gives the same result. *)
Lemma rep_ext (ma : (st -> option st) -> st -> option st) g :
  (forall k k' x,
      (forall y, length (right y) <= length (right x) -> k y = k' y) ->
      ma k x = ma k' x) ->
  forall n k k' x,
    (forall y, length (right y) <= length (right x) -> k y = k' y) ->
    rep ma g k n x = rep ma g k' n x.
Proof.
  intros Hma. induction n as [|n IH]; intros k k' x H; cbn [rep].
  - apply H. lia.
  - rewrite (H x) by lia. f_equal.
    rewrite (Hma _ (fun y => if length (right y) <? length (right x)
                             then rep ma g k' n y else None) x); [reflexivity|].
    intros y Hy. destruct (length (right y) <? length (right x)); [|reflexivity].
    apply IH. intros z Hz. apply H. lia.
Qed.

Lemma mt_ext r :
  forall k k' x,
    (forall y, length (right y) <= length (right x) -> k y = k' y) ->
    mt r k x = mt r k' x.
Proof.
  induction r as [|p|a IHa b IHb|a IHa b IHb|g a IHa|i a IHa| |m|];
    intros k k' x H; cbn [mt].
  - apply H. lia.
  - destruct (right x) as [|c t] eqn:E; [reflexivity|].
    destruct (p c); [|reflexivity]. apply H. cbn. lia.
  - apply IHa. intros y Hy. apply IHb. intros z Hz. apply H. lia.
  - now rewrite (IHa k k' x H), (IHb k k' x H).
  - apply rep_ext; [exact IHa | exact H].
  - apply IHa. intros y Hy. apply H. cbn. lia.
  - destruct (left x); [apply H; lia | reflexivity].
  - destruct (atEnd m x); [apply H; lia | reflexivity].
  - destruct (atWordBoundary x); [apply H; lia | reflexivity].
Qed.

Lemma rep_step (ma : (st -> option st) -> st -> option st) g k n x :
  rep ma g k (S n) x =
  let more := ma (fun y => if length (right y) <? length (right x)
                           then rep ma g k n y else None) x in
  if g then orElse more (k x) else orElse (k x) more.
Proof. reflexivity. Qed.

Lemma rep_fuel a g k :
  forall n x, length (right x) < n ->
              rep (mt a) g k n x = rep (mt a) g k (S n) x.
Proof.
  induction n as [|n IH]; intros x Hn; [lia|].
  rewrite (rep_step (mt a) g k (S n)), (rep_step (mt a) g k n). cbv zeta.
  assert (E : mt a (fun y => if length (right y) <? length (right x)
                             then rep (mt a) g k n y else None) x
              = mt a (fun y => if length (right y) <? length (right x)
                               then rep (mt a) g k (S n) y else None) x).
  { apply mt_ext. intros y Hy.
    destruct (length (right y) <? length (right x)) eqn:E; [|reflexivity].
    apply Nat.ltb_lt in E. apply IH. lia. }
  now rewrite E.
Qed.

(** A successful match only moves forward, and ends where its continuation
    succeeded. *)
Lemma rep_forward (ma : (st -> option st) -> st -> option st) g k :
  (forall k' x z, ma k' x = Some z ->
                  exists y, k' y = Some z /\ exists w, right x = w ++ right y) ->
  forall n x z, rep ma g k n x = Some z ->
                exists y, k y = Some z /\ exists w, right x = w ++ right y.
Proof.
  intros Hma. induction n as [|n IH]; intros x z H.
  - exists x. split; [exact H|]. now exists [].
  - cbn [rep] in H.
    assert (Hmore :
      ma (fun y => if length (right y) <? length (right x)
                   then rep ma g k n y else None) x = Some z ->
      exists y, k y = Some z /\ exists w, right x = w ++ right y).
    { intros Hm. apply Hma in Hm as [y1 [Hy1 [w1 Hw1]]].
      destruct (length (right y1) <? length (right x)); [|discriminate].
      apply IH in Hy1 as [y [Hy [w Hw]]].
      exists y. split; auto. exists (w1 ++ w). now rewrite Hw1, Hw, app_assoc. }
    assert (Hk : k x = Some z ->
                 exists y, k y = Some z /\ exists w, right x = w ++ right y).
    { intros Hx. exists x. split; auto. now exists []. }
    destruct g; unfold orElse in H.
    + destruct (ma _ x) eqn:E; [apply Hmore; exact H | apply Hk; exact H].
    + destruct (k x) eqn:E; [apply Hk; exact H | apply Hmore; exact H].
Qed.

Lemma mt_forward r :
  forall k x z, mt r k x = Some z ->
                exists y, k y = Some z /\ exists w, right x = w ++ right y.
Proof.
  induction r as [|p|a IHa b IHb|a IHa b IHb|g a IHa|i a IHa| |m|];
    intros k x z H; cbn [mt] in H.
  - exists x. split; auto. now exists [].
  - destruct (right x) as [|c t] eqn:E; [discriminate|].
    destruct (p c); [|discriminate].
    eexists. split; [exact H|]. now exists [c].
  - apply IHa in H as [y1 [H1 [w1 Hw1]]].
    apply IHb in H1 as [y [Hy [w Hw]]].
    exists y. split; auto. exists (w1 ++ w). now rewrite Hw1, Hw, app_assoc.
  - unfold orElse in H. destruct (mt a k x) eqn:E.
    + apply IHa. now rewrite E.
    + now apply IHb.
  - eapply rep_forward; eauto.
  - apply IHa in H as [y1 [H1 [w1 Hw1]]].
    eexists. split; [exact H1|]. now exists w1.
  - destruct (left x); [|discriminate]. exists x. split; auto. now exists [].
  - destruct (atEnd m x); [|discriminate]. exists x. split; auto. now exists [].
  - destruct (atWordBoundary x); [|discriminate]. exists x. split; auto.
    now exists [].
Qed.

Lemma matchAt_suffix r l rt y :
  matchAt r l rt = Some y -> exists w, rt = w ++ right y.
Proof.
  intros H. apply mt_forward in H as [y' [Hy [w Hw]]].
  injection Hy as <-. now exists w.
Qed.

(** A pattern that starts with a character never matches the empty text. *)
Lemma matchAt_chr_nonempty c r l rt y :
  matchAt (Cat (chr c) r) l rt = Some y -> length (right y) < length rt.
Proof.
  unfold matchAt. rewrite mt_cat, mt_chr. cbn [right left caps].
  destruct rt as [|d t]; [discriminate|].
  destruct (Ascii.eqb c d); [|discriminate]. intros H.
  apply mt_forward in H as [y' [Hy [w Hw]]]. injection Hy as <-.
  cbn [right] in Hw. rewrite Hw. cbn. rewrite length_app. lia.
Qed.

Lemma search_none_intro r rt :
  forall l, (forall n l', matchAt r l' (skipn n rt) = None) ->
            search r l rt = None.
Proof.
  induction rt as [|c t IH]; intros l H; cbn [search].
  - pose proof (H 0 l) as E. cbn [skipn] in E. now rewrite E.
  - pose proof (H 0 l) as E. cbn [skipn] in E. rewrite E.
    apply IH. intros n l'. exact (H (S n) l').
Qed.

End MatcherFacts.

(** ** Global replacement by a space *)

Section Blanking.

Lemma render_keep by_ c ps : render by_ (Keep c :: ps) = c :: render by_ ps.
Proof. reflexivity. Qed.

Lemma render_hit by_ w y ps : render by_ (Hit w y :: ps) = by_ ++ render by_ ps.
Proof. reflexivity. Qed.

Lemma pieces_blank r :
  forall rt skip l, blank (skipn skip rt) (render (js " ") (pieces r skip l rt)).
Proof.
  induction rt as [|c t IH]; intros skip l.
  - destruct skip as [|k]; cbn [pieces skipn].
    + destruct (matchAt r l []); cbn.
      * apply (blank_hit 0). constructor.
      * constructor.
    + constructor.
  - destruct skip as [|k]; cbn [pieces skipn].
    + destruct (matchAt r l (c :: t)) as [y|].
      * rewrite render_hit. cbn [js list_ascii_of_string app].
        destruct (length (c :: t) - length (right y)) as [|m] eqn:E.
        -- apply (blank_hit 0). cbn [skipn]. rewrite render_keep.
           constructor. apply (IH 0).
        -- apply (blank_hit (S m)). cbn [skipn]. apply IH.
      * rewrite render_keep. constructor. apply (IH 0).
    + apply IH.
Qed.

Lemma replaceAll_blank r x : blank x (replaceAll r (js " ") x).
Proof. exact (pieces_blank r x 0 []). Qed.

(** Without any match the text is unchanged. *)
Lemma pieces_no_match r by_ :
  forall rt l, (forall n l', matchAt r l' (skipn n rt) = None) ->
               render by_ (pieces r 0 l rt) = rt.
Proof.
  induction rt as [|c t IH]; intros l H; cbn [pieces].
  - pose proof (H 0 l) as E. cbn [skipn] in E. now rewrite E.
  - pose proof (H 0 l) as E. cbn [skipn] in E. rewrite E, render_keep.
    f_equal. apply IH. intros n l'. exact (H (S n) l').
Qed.

Lemma blank_head c a b :
  blank a (c :: b) -> c <> " "%char -> exists a', a = c :: a' /\ blank a' b.
Proof.
  intros H Hc. inversion H; subst; [eauto | congruence].
Qed.

Lemma hasBlock_cons c x : hasBlock x = true -> hasBlock (c :: x) = true.
Proof. intros H. cbn [hasBlock]. rewrite H. apply orb_true_r. Qed.

Lemma hasBlock_skipn n x : hasBlock (skipn n x) = true -> hasBlock x = true.
Proof.
  revert x. induction n as [|n IH]; intros [|c t]; cbn [skipn]; auto.
  intros H. apply hasBlock_cons. now apply IH.
Qed.

Lemma hasBlock_app_r x y : hasBlock y = true -> hasBlock (x ++ y) = true.
Proof. induction x; cbn [app]; auto. intros H. apply hasBlock_cons. auto. Qed.

Lemma opensBlock_app x y : opensBlock x = true -> opensBlock (x ++ y) = true.
Proof.
  unfold opensBlock. intros H. apply andb_true_iff in H as [H1 H2].
  destruct x as [|a [|b t]].
  - discriminate.
  - cbn [JS.startsWith js list_ascii_of_string] in H1.
    destruct (Ascii.eqb "/" a); cbn [andb] in H1; discriminate.
  - cbn [app skipn] in *. apply andb_true_iff. split.
    + exact (startsWith_app _ (a :: b :: t) y H1).
    + now apply includes_app_l.
Qed.

Lemma hasBlock_app_l x y : hasBlock x = true -> hasBlock (x ++ y) = true.
Proof.
  induction x as [|c t IH]; [discriminate|].
  cbn [hasBlock]. intros H. apply orb_true_iff in H as [H|H].
  - change ((c :: t) ++ y) with (c :: (t ++ y)). cbn [hasBlock].
    change (c :: (t ++ y)) with ((c :: t) ++ y).
    rewrite (opensBlock_app _ y H). reflexivity.
  - change ((c :: t) ++ y) with (c :: (t ++ y)). apply hasBlock_cons. auto.
Qed.

Lemma hasBlock_middle a m b : hasBlock (a ++ m ++ b) = false -> hasBlock m = false.
Proof.
  intros H. destruct (hasBlock m) eqn:E; auto.
  rewrite hasBlock_app_r in H; [discriminate|]. now apply hasBlock_app_l.
Qed.

Lemma blank_close a b :
  blank a b -> JS.includes (js "*/") b = true -> JS.includes (js "*/") a = true.
Proof.
  induction 1 as [|c a b Hb IH|n a b Hb IH]; auto.
  - cbn [JS.includes]. intros H. apply orb_true_iff in H as [H|H].
    + apply orb_true_iff. left.
      cbn [JS.startsWith js list_ascii_of_string] in *.
      destruct (Ascii.eqb "*" c); [|discriminate]. cbn [andb] in *.
      destruct b as [|d b']; [discriminate|].
      assert (Hd : d = "/"%char).
      { destruct (Ascii.eqb_spec "/" d); [auto|discriminate]. }
      subst d. apply blank_head in Hb as [a' [-> _]]; [|discriminate].
      reflexivity.
    + apply orb_true_iff. right. auto.
  - cbn [JS.includes]. intros H. apply orb_true_iff in H as [H|H].
    + discriminate.
    + eapply includes_skipn. apply IH. exact H.
Qed.

Lemma blank_noDash a b :
  blank a b -> JS.includes (js "--") a = false -> JS.includes (js "--") b = false.
Proof.
  induction 1 as [|c a b Hb IH|n a b Hb IH]; auto.
  - cbn [JS.includes]. intros H. apply orb_false_iff in H as [H1 H2].
    apply orb_false_iff. split; [|auto].
    cbn [JS.startsWith js list_ascii_of_string] in *.
    destruct (Ascii.eqb "-" c); [|reflexivity]. cbn [andb] in *.
    destruct b as [|d b']; [reflexivity|].
    destruct (Ascii.eqb_spec "-" d) as [<-|Hd]; [|reflexivity].
    apply blank_head in Hb as [a' [-> _]]; [|discriminate].
    cbn in H1. discriminate.
  - intros H. cbn [JS.includes]. apply orb_false_iff. split; [reflexivity|].
    apply IH. destruct (JS.includes (js "--") (skipn n a)) eqn:E; auto.
    apply includes_skipn in E. congruence.
Qed.

Lemma blank_noBlock a b : blank a b -> hasBlock a = false -> hasBlock b = false.
Proof.
  induction 1 as [|c a b Hb IH|n a b Hb IH]; auto.
  - cbn [hasBlock]. intros H. apply orb_false_iff in H as [H1 H2].
    apply orb_false_iff. split; [|auto].
    destruct (opensBlock (c :: b)) eqn:E; [|reflexivity].
    unfold opensBlock in E, H1. apply andb_true_iff in E as [E1 E2].
    cbn [JS.startsWith js list_ascii_of_string] in *.
    destruct (Ascii.eqb "/" c); [|discriminate]. cbn [andb] in *.
    destruct b as [|d b']; [discriminate|].
    destruct (Ascii.eqb_spec "*" d) as [<-|Hd]; [|discriminate].
    apply blank_head in Hb as [a' [-> Hb']]; [|discriminate].
    cbn [skipn] in E2, H1. apply (blank_close Hb') in E2.
    change (JS.includes (js "*/") a' = true) in E2.
    change (true && JS.includes (js "*/") a' = false) in H1.
    rewrite E2 in H1. discriminate.
  - intros H. cbn [hasBlock]. apply orb_false_iff. split; [reflexivity|].
    apply IH. destruct (hasBlock (skipn n a)) eqn:E; auto.
    apply hasBlock_skipn in E. congruence.
Qed.

End Blanking.

(** ** Comment stripping *)

Section Stripping.

Let sp : str := js " ".

(** After the first replacement no [--] is left. *)
Lemma lineComment_result :
  forall rt skip l,
    JS.includes (js "--") (render sp (pieces lineComment skip l rt)) = false.
Proof.
  induction rt as [|c t IH]; intros skip l.
  - destruct skip; cbn [pieces]; [|reflexivity].
    now rewrite lineComment_none.
  - destruct skip as [|k]; cbn [pieces]; [|apply IH].
    destruct (JS.startsWith (js "--") (c :: t)) eqn:S.
    + destruct (lineComment_some l _ S) as [y Hy]. rewrite Hy.
      assert (Hlen : length (right y) < length (c :: t))
        by (eapply matchAt_chr_nonempty; exact Hy).
      destruct (length (c :: t) - length (right y)) eqn:En; [lia|].
      rewrite render_hit. unfold sp at 1. cbn [js list_ascii_of_string app].
      cbn [JS.includes]. rewrite IH. reflexivity.
    + rewrite (lineComment_none l _ S), render_keep.
      cbn [JS.includes]. rewrite IH, orb_false_r.
      cbn [JS.startsWith js list_ascii_of_string] in S |- *.
      destruct (Ascii.eqb "-" c); [|reflexivity]. cbn [andb] in S |- *.
      destruct t as [|d t'].
      * cbn [pieces]. now rewrite lineComment_none.
      * destruct (Ascii.eqb "-" d) eqn:Ed; [discriminate|].
        cbn [pieces]. rewrite lineComment_none, render_keep.
        -- now rewrite Ed.
        -- cbn [JS.startsWith js list_ascii_of_string]. now rewrite Ed.
Qed.

(** After the second replacement no closed [/* */] is left. *)
Lemma blockComment_result :
  forall rt skip l, hasBlock (render sp (pieces blockComment skip l rt)) = false.
Proof.
  induction rt as [|c t IH]; intros skip l.
  - destruct skip; cbn [pieces]; [|reflexivity].
    now rewrite blockComment_none.
  - destruct skip as [|k]; cbn [pieces]; [|apply IH].
    destruct (opensBlock (c :: t)) eqn:S.
    + destruct (blockComment_some l _ S) as [y Hy]. rewrite Hy.
      assert (Hlen : length (right y) < length (c :: t))
        by (eapply matchAt_chr_nonempty; exact Hy).
      destruct (length (c :: t) - length (right y)) eqn:En; [lia|].
      rewrite render_hit. unfold sp at 1. cbn [js list_ascii_of_string app].
      cbn [hasBlock]. rewrite IH. reflexivity.
    + rewrite (blockComment_none l _ S), render_keep.
      cbn [hasBlock]. rewrite IH, orb_false_r.
      destruct (opensBlock (c :: render sp (pieces blockComment 0 (c :: l) t)))
        eqn:O; [exfalso|reflexivity].
      unfold opensBlock in O, S. apply andb_true_iff in O as [O1 O2].
      cbn [JS.startsWith js list_ascii_of_string] in O1, S.
      destruct (Ascii.eqb "/" c); [|discriminate]. cbn [andb] in O1, S.
      destruct t as [|d t'].
      * cbn [pieces] in O1. rewrite blockComment_none in O1 by reflexivity.
        discriminate.
      * cbn [pieces] in O1, O2. destruct (opensBlock (d :: t')) eqn:O3.
        -- destruct (blockComment_some (c :: l) _ O3) as [y Hy].
           rewrite Hy in O1. rewrite render_hit in O1. discriminate.
        -- rewrite (blockComment_none (c :: l) _ O3) in O1, O2.
           rewrite render_keep in O1, O2. cbn [skipn] in O2, S.
           destruct (Ascii.eqb "*" d); [|discriminate]. cbn [andb] in S.
           apply (blank_close (pieces_blank blockComment t' 0 _)) in O2.
           change (JS.includes (js "*/") t' = true) in O2.
           change (JS.includes (js "*/") t' = false) in S. congruence.
Qed.

(** After the third replacement no [#] is left. *)
Lemma hashComment_result :
  forall rt skip l,
    JS.includes (js "#") (render sp (pieces hashComment skip l rt)) = false.
Proof.
  induction rt as [|c t IH]; intros skip l.
  - destruct skip; cbn [pieces]; [|reflexivity].
    now rewrite hashComment_none.
  - destruct skip as [|k]; cbn [pieces]; [|apply IH].
    destruct (JS.startsWith (js "#") (c :: t)) eqn:S.
    + destruct (hashComment_some l _ S) as [y Hy]. rewrite Hy.
      assert (Hlen : length (right y) < length (c :: t))
        by (eapply matchAt_chr_nonempty; exact Hy).
      destruct (length (c :: t) - length (right y)) eqn:En; [lia|].
      rewrite render_hit. unfold sp at 1. cbn [js list_ascii_of_string app].
      cbn [JS.includes]. rewrite IH. reflexivity.
    + rewrite (hashComment_none l _ S), render_keep.
      cbn [JS.includes]. rewrite IH, orb_false_r.
      cbn [JS.startsWith js list_ascii_of_string] in S |- *. exact S.
Qed.

Lemma includes_false_skipn p n x :
  JS.includes p x = false -> JS.includes p (skipn n x) = false.
Proof.
  intros H. destruct (JS.includes p (skipn n x)) eqn:E; auto.
  apply includes_skipn in E. congruence.
Qed.

Lemma includes_false_startsWith p x :
  JS.includes p x = false -> JS.startsWith p x = false.
Proof.
  destruct x; cbn [JS.includes]; intros H; now apply orb_false_iff in H.
Qed.

Lemma hasBlock_false_opens n x : hasBlock x = false -> opensBlock (skipn n x) = false.
Proof.
  intros H. destruct (opensBlock (skipn n x)) eqn:E; auto.
  assert (hasBlock (skipn n x) = true).
  { destruct (skipn n x); [discriminate|]. cbn [hasBlock]. now rewrite E. }
  apply hasBlock_skipn in H0. congruence.
Qed.

(** A text without the pattern is left as it is. *)
Lemma lineComment_id by_ x :
  JS.includes (js "--") x = false -> replaceAll lineComment by_ x = x.
Proof.
  intros H. apply pieces_no_match. intros n l'. apply lineComment_none.
  now apply includes_false_startsWith, includes_false_skipn.
Qed.

Lemma blockComment_id by_ x :
  hasBlock x = false -> replaceAll blockComment by_ x = x.
Proof.
  intros H. apply pieces_no_match. intros n l'. apply blockComment_none.
  now apply hasBlock_false_opens.
Qed.

Lemma hashComment_id by_ x :
  JS.includes (js "#") x = false -> replaceAll hashComment by_ x = x.
Proof.
  intros H. apply pieces_no_match. intros n l'. apply hashComment_none.
  now apply includes_false_startsWith, includes_false_skipn.
Qed.

End Stripping.

Section RemoveComments.

Lemma removeComments_eq x :
  removeComments x =
  JS.trim (replaceAll hashComment (js " ")
             (replaceAll blockComment (js " ")
                (replaceAll lineComment (js " ") x))).
Proof. reflexivity. Qed.

Lemma clean_middle a m b : clean (a ++ m ++ b) -> clean m.
Proof.
  intros [H1 [H2 H3]]. repeat split.
  - exact (includes_middle _ _ _ _ H1).
  - exact (hasBlock_middle _ _ _ H2).
  - exact (includes_middle _ _ _ _ H3).
Qed.

Lemma clean_trim x : clean x -> clean (JS.trim x).
Proof.
  intros H. destruct (trim_decompose x) as [a [b [E _]]].
  rewrite E in H. exact (clean_middle _ _ _ H).
Qed.

(** The stripped text shows no comment mark. *)
Lemma removeComments_clean x : clean (removeComments x).
Proof.
  rewrite removeComments_eq. apply clean_trim.
  set (u0 := replaceAll lineComment (js " ") x).
  set (u1 := replaceAll blockComment (js " ") u0).
  assert (D0 : JS.includes (js "--") u0 = false)
    by apply lineComment_result.
  assert (D1 : JS.includes (js "--") u1 = false)
    by exact (blank_noDash (replaceAll_blank blockComment u0) D0).
  assert (B1 : hasBlock u1 = false) by apply blockComment_result.
  repeat split.
  - exact (blank_noDash (replaceAll_blank hashComment u1) D1).
  - exact (blank_noBlock (replaceAll_blank hashComment u1) B1).
  - apply hashComment_result.
Qed.

Lemma removeComments_trimmed x : JS.trim (removeComments x) = removeComments x.
Proof. rewrite removeComments_eq. apply trim_idem. Qed.

(** A trimmed text without comment marks is left as it is. *)
Lemma removeComments_fix x : clean x -> JS.trim x = x -> removeComments x = x.
Proof.
  intros [H1 [H2 H3]] Ht. rewrite removeComments_eq.
  rewrite lineComment_id by exact H1.
  rewrite blockComment_id by exact H2.
  rewrite hashComment_id by exact H3.
  exact Ht.
Qed.

(** Stripping comments twice is stripping them once. *)
Lemma removeComments_idem x : removeComments (removeComments x) = removeComments x.
Proof.
  apply removeComments_fix; [apply removeComments_clean | apply removeComments_trimmed].
Qed.

Lemma space_includes q p x :
  JS.isSpace q = false -> forallb JS.isSpace x = true ->
  JS.includes (q :: p) x = false.
Proof.
  intros Hq. induction x as [|c t IH]; [reflexivity|].
  cbn [forallb JS.includes JS.startsWith]. intros H.
  apply andb_true_iff in H as [Hc Ht]. rewrite (IH Ht), orb_false_r.
  destruct (Ascii.eqb_spec q c) as [<-|]; [congruence|reflexivity].
Qed.

Lemma space_noBlock x : forallb JS.isSpace x = true -> hasBlock x = false.
Proof.
  induction x as [|c t IH]; [reflexivity|].
  cbn [forallb hasBlock]. intros H. apply andb_true_iff in H as [Hc Ht].
  rewrite (IH Ht), orb_false_r. unfold opensBlock.
  cbn [JS.startsWith js list_ascii_of_string].
  destruct (Ascii.eqb_spec "/" c) as [<-|]; [discriminate|reflexivity].
Qed.

(** A text of white space only strips to the empty text. *)
Lemma removeComments_blank x : JS.trim x = [] -> removeComments x = [].
Proof.
  intros H. pose proof (trim_nil_all_space _ H) as Hs.
  rewrite removeComments_eq.
  rewrite lineComment_id by (apply space_includes; [reflexivity | exact Hs]).
  rewrite blockComment_id by (apply space_noBlock; exact Hs).
  rewrite hashComment_id by (apply space_includes; [reflexivity | exact Hs]).
  exact H.
Qed.

(** The functions that strip comments themselves see a stripped text as
    the original one. *)
Lemma statements_stripped x : statements (removeComments x) = statements x.
Proof. unfold statements. now rewrite removeComments_idem. Qed.

Lemma hasMultipleStatements_stripped x :
  hasMultipleStatements (removeComments x) = hasMultipleStatements x.
Proof. unfold hasMultipleStatements. now rewrite statements_stripped. Qed.

Lemma detectOperationType_stripped x :
  detectOperationType (removeComments x) = detectOperationType x.
Proof. unfold detectOperationType. now rewrite removeComments_idem. Qed.

Lemma extractTableNames_stripped x :
  extractTableNames (removeComments x) = extractTableNames x.
Proof. unfold extractTableNames. now rewrite removeComments_idem. Qed.

Lemma extractColumnNames_stripped x :
  extractColumnNames (removeComments x) = extractColumnNames x.
Proof. unfold extractColumnNames. now rewrite removeComments_idem. Qed.

End RemoveComments.

(** ** The access-control gate *)

(** Unfold [validateSQL] and let each stage read the original statement. *)
Ltac open_gate :=
  unfold validateSQL; cbv zeta;
  rewrite ?hasMultipleStatements_stripped, ?detectOperationType_stripped,
    ?extractTableNames_stripped, ?extractColumnNames_stripped.

(** Split on the outcome of the next check of the gate. *)
Ltac next_check :=
  match goal with
  | |- context [if ?b then reject _ else _] => destruct b eqn:?
  | |- context [match ?o with Some _ => reject _ | None => _ end] =>
      destruct o eqn:?
  end.

Section Gate.

Variables (sql : str) (schema : list SchemaTable).

(** Every result is a rejection with a reason, or the acceptance of the
    stripped statement. *)
Lemma validateSQL_shape role allowed :
  (exists why, validateSQL sql schema role allowed = reject why)
  \/ validateSQL sql schema role allowed
     = accept (enforceLimit (removeComments sql))
              (analyzeOperation (removeComments sql) schema).
Proof.
  open_gate. repeat next_check; eauto.
Qed.

(** C7: in every result, [sanitized_sql] and [operation_analysis] are
    present exactly when [is_valid] is true, and [reason] is present exactly
    when [is_valid] is false. *)
Theorem validateSQL_field_presence role allowed :
  let v := validateSQL sql schema role allowed in
  (sanitized_sql v <> None <-> is_valid v = true)
  /\ (operation_analysis v <> None <-> is_valid v = true)
  /\ (reason v <> None <-> is_valid v = false).
Proof.
  cbv zeta. destruct (validateSQL_shape role allowed) as [[why ->]| ->];
    cbn; repeat split; intros; congruence.
Qed.

(** C8: both roles are granted SELECT, INSERT, UPDATE and DELETE, so the
    permission check passes for one exactly when it passes for the other,
    and without an allowlist a statement is valid for [creator] exactly
    when it is valid for [user]. *)
Theorem roles_equally_permitted :
  allowedOpsOf creator = [SELECT; INSERT; UPDATE; DELETE]
  /\ allowedOpsOf user = [SELECT; INSERT; UPDATE; DELETE]
  /\ (forall op, existsb (opEqb op) (allowedOpsOf creator)
                 = existsb (opEqb op) (allowedOpsOf user))
  /\ is_valid (validateSQL sql schema creator None)
     = is_valid (validateSQL sql schema user None).
Proof.
  repeat split.
  open_gate.
  change (allowedOpsOf user) with (allowedOpsOf creator).
  repeat next_check; reflexivity.
Qed.

End Gate.

Section Rejections.


Lemma detectOperationType_blank x : JS.trim x = [] -> detectOperationType x = UNKNOWN.
Proof.
  intros H. unfold detectOperationType. rewrite (removeComments_blank _ H).
  reflexivity.
Qed.

Lemma length_zero (x : str) : (length x =? 0) = true -> x = [].
Proof. destruct x; [reflexivity|discriminate]. Qed.

End Rejections.

(** C1 (as stated it fails): a statement classified as DDL is not always
    rejected with the DDL reason; stacked DDL statements are rejected by the
    earlier multiple-statements check, whose reason does not mention DDL. *)
Lemma ddl_reason_counterexample :
  detectOperationType (js "DROP TABLE a; DROP TABLE b") = DDL
  /\ validateSQL (js "DROP TABLE a; DROP TABLE b") demoSchema creator None
     = reject multipleMessage
  /\ JS.includes (js "DDL") multipleMessage = false.
Proof. vm_compute. repeat split. Qed.

(** C1 (amended): a statement classified as DDL is rejected for every role,
    schema and allowlist.  The reason is that of the first check that fails:
    the multiple-statements one, else the blocked-pattern one, else the DDL
    one; so it is the DDL reason whenever the statement is neither stacked
    nor carries a blocked pattern.  In particular [DROP TABLE demo_users] is
    rejected with the DDL reason for every role. *)
Theorem ddl_always_rejected :
  (forall sql schema role allowed,
      detectOperationType sql = DDL ->
      is_valid (validateSQL sql schema role allowed) = false
      /\ validateSQL sql schema role allowed
         = (if hasMultipleStatements sql then reject multipleMessage
            else match hasBlockedPatterns (removeComments sql) with
                 | Some blockedPattern => reject (blockedMessage blockedPattern)
                 | None => reject ddlMessage
                 end))
  /\ (forall schema role allowed,
         validateSQL (js "DROP TABLE demo_users") schema role allowed
         = reject ddlMessage)
  /\ JS.includes (js "DDL") ddlMessage = true.
Proof.
  split; [|split; [intros; vm_compute; reflexivity | reflexivity]].
  intros sql schema role allowed Hddl.
  assert (Hne : (length (JS.trim sql) =? 0) = false).
  { destruct (length (JS.trim sql) =? 0) eqn:E; [|reflexivity].
    apply length_zero in E. rewrite (detectOperationType_blank _ E) in Hddl.
    discriminate. }
  open_gate. rewrite Hne, Hddl. change (opEqb DDL DDL) with true. cbv iota.
  split; repeat next_check; reflexivity.
Qed.

Lemma ddl_always_rejected_witness :
  detectOperationType (js "drop table demo_users -- now") = DDL
  /\ is_valid (validateSQL (js "drop table demo_users -- now") demoSchema user None)
     = false.
Proof.
  split; [vm_compute; reflexivity|].
  apply (proj1 ddl_always_rejected). vm_compute. reflexivity.
Defined.



(** ** Risk analysis *)

Lemma analyzeOperation_type sql schema :
  operation_type (analyzeOperation sql schema) = detectOperationType sql.
Proof.
  unfold analyzeOperation. cbv zeta.
  destruct (detectOperationType sql); try reflexivity;
    repeat match goal with
           | |- context [if ?b then _ else _] => destruct b
           end; reflexivity.
Qed.

(** The analysis takes the absence of the letters WHERE for the absence of a
    WHERE clause: an UPDATE or DELETE statement whose upper-cased text has no
    occurrence of WHERE is analysed as critical, affecting all rows and
    requiring confirmation; so is the analysis in the result of
    [validateSQL], and in particular [DELETE FROM demo_orders] is valid for
    [creator] with that analysis. *)
Lemma write_without_the_word_where :
  (forall sql schema,
      detectOperationType sql = UPDATE \/ detectOperationType sql = DELETE ->
      JS.includes (js "WHERE") (JS.toUpperCase sql) = false ->
      let a := analyzeOperation sql schema in
      risk_level a = critical /\ estimated_rows a = js "all"
      /\ requires_confirmation a = true)
  /\ (forall sql schema role allowed a,
         operation_analysis (validateSQL sql schema role allowed) = Some a ->
         operation_type a = UPDATE \/ operation_type a = DELETE ->
         JS.includes (js "WHERE") (JS.toUpperCase (removeComments sql)) = false ->
         risk_level a = critical /\ estimated_rows a = js "all"
         /\ requires_confirmation a = true)
  /\ (forall allowed,
         let v := validateSQL (js "DELETE FROM demo_orders") demoSchema creator allowed in
         is_valid v = true
         /\ option_map risk_level (operation_analysis v) = Some critical
         /\ option_map estimated_rows (operation_analysis v) = Some (js "all")
         /\ option_map requires_confirmation (operation_analysis v) = Some true).
Proof.
  assert (A : forall sql schema,
      detectOperationType sql = UPDATE \/ detectOperationType sql = DELETE ->
      JS.includes (js "WHERE") (JS.toUpperCase sql) = false ->
      let a := analyzeOperation sql schema in
      risk_level a = critical /\ estimated_rows a = js "all"
      /\ requires_confirmation a = true).
  { intros sql schema Hop Hw. unfold analyzeOperation. cbv zeta.
    destruct Hop as [-> | ->]; rewrite Hw; cbn; auto. }
  split; [exact A|split].
  - intros sql schema role allowed a Ha Hop Hw.
    destruct (validateSQL_shape sql schema role allowed) as [[why E]|E];
      rewrite E in Ha; cbn [operation_analysis accept reject] in Ha;
      [discriminate|].
    injection Ha as Ha. subst a.
    rewrite analyzeOperation_type in Hop.
    exact (A (removeComments sql) schema Hop Hw).
  - intros allowed. vm_compute. repeat split.
Qed.

Lemma write_without_the_word_where_witness :
  (detectOperationType (js "update demo_users set name = 'x'") = UPDATE
   \/ detectOperationType (js "update demo_users set name = 'x'") = DELETE)
  /\ JS.includes (js "WHERE") (JS.toUpperCase (js "update demo_users set name = 'x'"))
     = false
  /\ risk_level (analyzeOperation (js "update demo_users set name = 'x'") demoSchema)
     = critical.
Proof.
  split; [left; vm_compute; reflexivity|].
  split; [vm_compute; reflexivity|].
  apply (proj1 write_without_the_word_where).
  - left. vm_compute. reflexivity.
  - vm_compute. reflexivity.
Defined.

(** C3: the example of the claim holds, but a write without a WHERE clause is
    not always analysed as critical.  [UPDATE demo_users SET name = 'nowhere']
    has no WHERE clause and changes every row; the letters WHERE of its
    string literal make [validateSQL] accept it with the risk [high] and the
    estimate [multiple].  [DELETE FROM demo_orders -- everywhere] passes
    [execute-query], which analyses the text with its comment, and the
    confirmation it asks for carries the risk [high]. *)
Theorem where_letters_hide_missing_clause :
  (let v := validateSQL (js "DELETE FROM demo_orders") demoSchema creator None in
   is_valid v = true
   /\ option_map risk_level (operation_analysis v) = Some critical
   /\ option_map estimated_rows (operation_analysis v) = Some (js "all")
   /\ option_map requires_confirmation (operation_analysis v) = Some true)
  /\ (let q := js "UPDATE demo_users SET name = 'nowhere'" in
      let v := validateSQL q demoSchema creator None in
      detectOperationType q = UPDATE
      /\ is_valid v = true
      /\ option_map risk_level (operation_analysis v) = Some high
      /\ option_map estimated_rows (operation_analysis v) = Some (js "multiple")
      /\ option_map warnings (operation_analysis v)
         = Some [js "This will modify existing records."])
  /\ (let q := js "DELETE FROM demo_orders -- everywhere" in
      detectOperationType q = DELETE
      /\ JS.includes (js "WHERE") (JS.toUpperCase (removeComments q)) = false
      /\ match ExecuteQuery.route
                (ExecuteQuery.mkRequest (Some q) (Some creator) None false false)
         with
         | ExecuteQuery.NeedsConfirmation op a _ =>
             op = DELETE /\ risk_level a = high
             /\ estimated_rows a = js "multiple"
         | _ => False
         end).
Proof. vm_compute. repeat split. Qed.

(** ** Table checks *)

(** C6 (as stated it fails): for [creator] a supplied allowlist is not
    consulted; a statement on a table outside the allowlist is accepted. *)
Lemma allowlist_ignored_for_creator :
  extractTableNames (js "SELECT * FROM demo_orders") = [js "demo_orders"]
  /\ JS.member (js "demo_orders") (map JS.toLowerCase [js "demo_users"]) = false
  /\ is_valid (validateSQL (js "SELECT * FROM demo_orders") demoSchema creator
                           (Some [js "demo_users"])) = true.
Proof. vm_compute. repeat split. Qed.

(** C6 (amended): for the role [user], whenever an allowlist is supplied, a
    statement one of whose extracted tables is absent from it (compared in
    lower case) is rejected: either by an earlier check, with the result it
    has without allowlist, or with the access-denied reason naming a denied
    table.  For the role [creator] the allowlist has no effect. *)
Theorem allowlist_applies_to_user :
  (forall sql schema allowed t,
      In t (extractTableNames sql) ->
      JS.member t (map JS.toLowerCase allowed) = false ->
      let v := validateSQL sql schema user (Some allowed) in
      is_valid v = false
      /\ (v = validateSQL sql schema user None
          \/ exists t',
               In t' (extractTableNames sql)
               /\ JS.member t' (map JS.toLowerCase allowed) = false
               /\ v = reject (deniedMessage t')))
  /\ (forall sql schema allowed,
         validateSQL sql schema creator allowed = validateSQL sql schema creator None)
  /\ validateSQL (js "SELECT * FROM demo_orders") demoSchema user
                 (Some [js "demo_users"])
     = reject (deniedMessage (js "demo_orders")).
Proof.
  split; [|split].
  - intros sql schema allowed t Hin Hout. cbv zeta. open_gate. cbv beta iota.
    repeat next_check; try (split; [reflexivity | left; reflexivity]).
    all: match goal with
         | F : find (fun table =>
                       negb (JS.member table (map JS.toLowerCase _))) _
               = Some ?t' |- _ =>
             split; [reflexivity|]; right; exists t';
             apply find_some in F as [Hin' Hneg];
             apply negb_true_iff in Hneg; auto
         | F : find (fun table =>
                       negb (JS.member table (map JS.toLowerCase _))) _
               = None |- _ =>
             exfalso; pose proof (find_none _ _ F t Hin) as Hneg;
             cbv beta in Hneg; rewrite Hout in Hneg; discriminate
         end.
  - intros sql schema allowed. open_gate. destruct allowed; reflexivity.
  - vm_compute. reflexivity.
Qed.

Lemma allowlist_applies_to_user_witness :
  In (js "demo_orders")
     (extractTableNames (js "SELECT * FROM demo_users JOIN demo_orders"))
  /\ JS.member (js "demo_orders") (map JS.toLowerCase [js "Demo_Users"]) = false
  /\ is_valid (validateSQL (js "SELECT * FROM demo_users JOIN demo_orders")
                           demoSchema user (Some [js "Demo_Users"])) = false.
Proof.
  split; [vm_compute; auto|]. split; [vm_compute; reflexivity|].
  apply (proj1 allowlist_applies_to_user _ _ _ (js "demo_orders")).
  - vm_compute. auto.
  - vm_compute. reflexivity.
Defined.

Section NoTables.

Lemma filter_member_nil (f : SchemaTable -> str) schema :
  filter (fun t => JS.member (f t) []) schema = [].
Proof. induction schema; cbn; auto. Qed.

Lemma find_unreachable (p q : str -> bool) l :
  find (fun c => p c && (false && q c)) l = None.
Proof. induction l; cbn; auto. now rewrite andb_false_r. Qed.

End NoTables.

(** C10: a statement from which no table name is extracted passes the
    table-existence, allowlist and column-existence checks whatever the
    schema, the role and the allowlist: once it passes the checks before
    them it is accepted.  In particular [SELECT 1] is valid for every
    schema, role and allowlist, with sanitized text [SELECT 1 LIMIT 100]. *)
Theorem no_table_checks_pass :
  (forall sql schema role allowed,
      extractTableNames sql = [] ->
      JS.trim sql <> [] ->
      hasMultipleStatements sql = false ->
      hasBlockedPatterns (removeComments sql) = None ->
      In (detectOperationType sql) [SELECT; INSERT; UPDATE; DELETE] ->
      validateSQL sql schema role allowed
      = accept (enforceLimit (removeComments sql))
               (analyzeOperation (removeComments sql) schema))
  /\ (forall schema role allowed,
         let v := validateSQL (js "SELECT 1") schema role allowed in
         is_valid v = true /\ sanitized_sql v = Some (js "SELECT 1 LIMIT 100")).
Proof.
  assert (A : forall sql schema role allowed,
      extractTableNames sql = [] ->
      JS.trim sql <> [] ->
      hasMultipleStatements sql = false ->
      hasBlockedPatterns (removeComments sql) = None ->
      In (detectOperationType sql) [SELECT; INSERT; UPDATE; DELETE] ->
      validateSQL sql schema role allowed
      = accept (enforceLimit (removeComments sql))
               (analyzeOperation (removeComments sql) schema)).
  { intros sql schema role allowed Ht Hne Hm Hb Hop. open_gate.
    destruct (length (JS.trim sql) =? 0) eqn:E;
      [apply length_zero in E; contradiction|].
    rewrite Hm, Hb, Ht.
    assert (Hd : opEqb (detectOperationType sql) DDL = false
                 /\ existsb (opEqb (detectOperationType sql)) (allowedOpsOf role) = true).
    { destruct role; cbn in Hop;
        destruct Hop as [<-|[<-|[<-|[<-|[]]]]]; split; reflexivity. }
    destruct Hd as [-> ->]. cbn [negb find].
    rewrite filter_member_nil. cbn [flat_map length Nat.ltb Nat.leb].
    rewrite find_unreachable.
    destruct role, allowed; reflexivity. }
  split; [exact A|].
  intros schema role allowed. cbv zeta. rewrite A.
  - split; [reflexivity|]. cbn [sanitized_sql accept].
    vm_compute. reflexivity.
  - vm_compute. reflexivity.
  - vm_compute. discriminate.
  - vm_compute. reflexivity.
  - vm_compute. reflexivity.
  - vm_compute. auto.
Qed.

Lemma no_table_checks_pass_witness :
  extractTableNames (js "select now();") = []
  /\ sanitized_sql (validateSQL (js "select now();") [] user (Some []))
     = Some (js "select now() LIMIT 100").
Proof.
  split; [vm_compute; reflexivity|].
  rewrite (proj1 no_table_checks_pass).
  - vm_compute. reflexivity.
  - vm_compute. reflexivity.
  - vm_compute. discriminate.
  - vm_compute. reflexivity.
  - vm_compute. reflexivity.
  - vm_compute. auto.
Defined.

(** ** Limit enforcement *)

(** C4: the two examples of the claim hold, but a SELECT statement accepted
    with a second LIMIT above the ceiling keeps it: only the first numeric
    LIMIT of the text is examined. *)
Theorem limit_beyond_first_not_clamped :
  sanitized_sql (validateSQL (js "SELECT * FROM demo_users") demoSchema user None)
  = Some (js "SELECT * FROM demo_users LIMIT 100")
  /\ sanitized_sql
       (validateSQL (js "SELECT * FROM demo_users LIMIT 5000") demoSchema user None)
     = Some (js "SELECT * FROM demo_users LIMIT 1000")
  /\ let q := js "SELECT * FROM (SELECT * FROM demo_users LIMIT 5) t LIMIT 5000" in
     detectOperationType q = SELECT
     /\ is_valid (validateSQL q demoSchema user None) = true
     /\ sanitized_sql (validateSQL q demoSchema user None) = Some q
     /\ JS.includes (js "LIMIT 5000") q = true.
Proof. vm_compute. repeat split. Qed.

(** C5: a statement that is not a SELECT gets no LIMIT appended, but a numeric
    LIMIT above the ceiling in its text is rewritten all the same, in a
    DELETE and inside the string literal of an INSERT. *)
Theorem limit_rewritten_in_writes :
  (let q := js "DELETE FROM demo_orders LIMIT 5000" in
   detectOperationType q = DELETE
   /\ is_valid (validateSQL q demoSchema creator None) = true
   /\ sanitized_sql (validateSQL q demoSchema creator None)
      = Some (js "DELETE FROM demo_orders LIMIT 1000"))
  /\ (let q := js "INSERT INTO demo_users (name) VALUES ('limit 5000')" in
      detectOperationType q = INSERT
      /\ sanitized_sql (validateSQL q demoSchema user None)
         = Some (js "INSERT INTO demo_users (name) VALUES ('LIMIT 1000')"))
  /\ sanitized_sql (validateSQL (js "DELETE FROM demo_orders") demoSchema creator None)
     = Some (js "DELETE FROM demo_orders").
Proof. vm_compute. repeat split. Qed.

Section Replacement.

Lemma search_match r rt :
  forall l i y, search r l rt = Some (i, y) ->
                exists n l', i = length l + n /\ n <= length rt
                             /\ matchAt r l' (skipn n rt) = Some y.
Proof.
  induction rt as [|c t IH]; intros l i y H; cbn [search] in H.
  - destruct (matchAt r l []) eqn:E; [|discriminate].
    injection H as <- <-. exists 0, l. cbn. repeat split; auto.
  - destruct (matchAt r l (c :: t)) eqn:E.
    + injection H as <- <-. exists 0, l. cbn. repeat split; auto. lia.
    + apply IH in H as [n [l' [Hi [Hn Hm]]]]. exists (S n), l'.
      cbn in *. repeat split; auto; lia.
Qed.

(** The first match splits the text in three; it is the middle part that
    is replaced. *)
Lemma replaceFirst_split r by_ x :
  replaceFirst r by_ x = x
  \/ exists pre w y l',
       x = pre ++ w ++ right y
       /\ replaceFirst r by_ x = pre ++ by_ ++ right y
       /\ matchAt r l' (w ++ right y) = Some y.
Proof.
  unfold replaceFirst. destruct (search r [] x) as [[i y]|] eqn:E; [|now left].
  right. apply search_match in E as [n [l' [Hi [Hn Hm]]]]. cbn in Hi. subst i.
  destruct (matchAt_suffix _ _ _ Hm) as [w Hw].
  exists (firstn n x), w, y, l'. repeat split.
  - rewrite <- Hw. symmetry. apply firstn_skipn.
  - now rewrite <- Hw.
Qed.

Lemma trailingSemicolons_end l rt y :
  matchAt trailingSemicolons l rt = Some y -> right y = [].
Proof.
  unfold matchAt, trailingSemicolons. cbn [cat]. rewrite mt_cat. intros H.
  apply mt_forward in H as [y1 [H1 _]]. rewrite mt_cat in H1.
  apply mt_forward in H1 as [y2 [H2 _]]. rewrite mt_eol in H2.
  unfold atEnd in H2. destruct (right y2) eqn:E; cbn in H2; [|discriminate].
  injection H2 as <-. exact E.
Qed.

Variables (p q : ascii) (R : str).
Hypothesis R_nonempty : R <> [].
Hypothesis R_avoids : forall c, In c R -> c <> p /\ c <> q.

Lemma includes2_inert_app post :
  JS.includes [p; q] post = false -> JS.includes [p; q] (R ++ post) = false.
Proof.
  intros H. clear R_nonempty. induction R as [|c R' IH]; [exact H|].
  cbn [app JS.includes JS.startsWith].
  rewrite IH by (intros d Hd; apply R_avoids; now right).
  destruct (Ascii.eqb_spec p c) as [<-|]; [|reflexivity].
  destruct (R_avoids p (or_introl eq_refl)) as [[] _]. reflexivity.
Qed.

Lemma includes2_replace pre w post :
  JS.includes [p; q] (pre ++ w ++ post) = false ->
  JS.includes [p; q] (pre ++ R ++ post) = false.
Proof.
  induction pre as [|a pre' IH]; cbn [app].
  - intros H. apply includes2_inert_app.
    destruct (JS.includes [p; q] post) eqn:E; auto.
    rewrite (includes_app_r _ w _ E) in H. discriminate.
  - cbn [JS.includes]. intros H. apply orb_false_iff in H as [H1 H2].
    rewrite (IH H2), orb_false_r.
    cbn [JS.startsWith] in H1 |- *.
    destruct (Ascii.eqb p a); [|reflexivity]. cbn [andb] in H1 |- *.
    destruct pre' as [|b pre'']; [|exact H1].
    destruct R as [|r0 R']; [contradiction|]. cbn [app].
    destruct (Ascii.eqb_spec q r0) as [<-|]; [|reflexivity].
    destruct (R_avoids q (or_introl eq_refl)) as [_ []]. reflexivity.
Qed.

End Replacement.

Section CleanReplacement.

Variable R : str.
Hypothesis R_nonempty : R <> [].
Hypothesis R_inert : inert R = true.

Lemma inert_avoids c :
  In c R -> c <> "-"%char /\ c <> "/"%char /\ c <> "*"%char /\ c <> "#"%char.
Proof.
  intros Hc. unfold inert in R_inert. rewrite forallb_forall in R_inert.
  specialize (R_inert _ Hc). apply negb_true_iff in R_inert.
  repeat split; intros ->; discriminate.
Qed.

Lemma includes1_replace pre w post :
  JS.includes (js "#") (pre ++ w ++ post) = false ->
  JS.includes (js "#") (pre ++ R ++ post) = false.
Proof.
  assert (E : forall x, JS.includes (js "#") x = existsb (Ascii.eqb "#") x).
  { induction x as [|c t IH]; [reflexivity|].
    change (JS.includes (js "#") (c :: t))
      with (Ascii.eqb "#" c && true || JS.includes (js "#") t).
    now rewrite IH, andb_true_r. }
  rewrite !E, !existsb_app. intros H.
  apply orb_false_iff in H as [H1 H2]. apply orb_false_iff in H2 as [_ H3].
  rewrite H1, H3, orb_false_r. cbn [orb].
  destruct (existsb (Ascii.eqb "#") R) eqn:X; [|reflexivity].
  apply existsb_exists in X as [c [Hc Hx]]. apply Ascii.eqb_eq in Hx. subst c.
  now destruct (inert_avoids _ Hc) as [_ [_ [_ []]]].
Qed.

Lemma hasBlock_inert_app post : hasBlock post = false -> hasBlock (R ++ post) = false.
Proof.
  intros H. clear R_nonempty. induction R as [|c R' IH]; [exact H|].
  assert (Hc : inert R' = true).
  { unfold inert in *. cbn [forallb] in R_inert.
    now apply andb_true_iff in R_inert. }
  cbn [app hasBlock]. rewrite (IH Hc), orb_false_r. unfold opensBlock.
  cbn [JS.startsWith js list_ascii_of_string].
  destruct (Ascii.eqb_spec "/" c) as [<-|]; [|reflexivity].
  cbn in R_inert. discriminate.
Qed.

Lemma hasBlock_replace pre w post :
  hasBlock (pre ++ w ++ post) = false -> hasBlock (pre ++ R ++ post) = false.
Proof.
  induction pre as [|a pre' IH]; cbn [app].
  - intros H. apply hasBlock_inert_app.
    destruct (hasBlock post) eqn:E; auto.
    rewrite (hasBlock_app_r w _ E) in H. discriminate.
  - cbn [hasBlock]. intros H. apply orb_false_iff in H as [H1 H2].
    rewrite (IH H2), orb_false_r.
    destruct (opensBlock (a :: pre' ++ R ++ post)) eqn:O; [exfalso|reflexivity].
    unfold opensBlock in O, H1. apply andb_true_iff in O as [O1 O2].
    cbn [JS.startsWith js list_ascii_of_string] in O1, H1.
    destruct (Ascii.eqb "/" a); [|discriminate]. cbn [andb] in O1, H1.
    destruct pre' as [|b pre''].
    + destruct R as [|r0 R']; [contradiction|]. cbn [app] in O1.
      destruct (Ascii.eqb_spec "*" r0) as [<-|]; [|discriminate].
      cbn in R_inert. discriminate.
    + cbn [app skipn] in O1, O2, H1.
      destruct (Ascii.eqb "*" b); [|discriminate]. cbn [andb] in H1.
      change (JS.includes (js "*/") (pre'' ++ w ++ post) = false) in H1.
      apply (includes2_replace (p := "*") (q := "/") R_nonempty) in H1.
      * change (js "*/") with ["*"%char; "/"%char] in O2. congruence.
      * intros c Hc. destruct (inert_avoids _ Hc) as [_ [? [? _]]]. auto.
Qed.

(** Replacing a stretch of a clean text by an inert one keeps it clean. *)
Lemma clean_replace pre w post : clean (pre ++ w ++ post) -> clean (pre ++ R ++ post).
Proof.
  intros [H1 [H2 H3]]. repeat split.
  - apply (includes2_replace (p := "-") (q := "-") R_nonempty) with (w := w).
    + intros c Hc. destruct (inert_avoids _ Hc) as [? _]. auto.
    + exact H1.
  - now apply hasBlock_replace with (w := w).
  - now apply includes1_replace with (w := w).
Qed.

End CleanReplacement.

Section Sanitized.

Lemma clean_commentFree x : clean x -> commentFree x = true.
Proof.
  intros [H1 [H2 H3]]. unfold commentFree, COMMENT_PATTERNS, test.
  cbn [forallb].
  rewrite (search_none_intro lineComment x []), (search_none_intro blockComment x []),
    (search_none_intro hashComment x []); [reflexivity| | |].
  - intros n l'. apply hashComment_none.
    now apply includes_false_startsWith, includes_false_skipn.
  - intros n l'. apply blockComment_none. now apply hasBlock_false_opens.
  - intros n l'. apply lineComment_none.
    now apply includes_false_startsWith, includes_false_skipn.
Qed.

(** The limit enforcer brings no comment mark into a clean text. *)
Lemma enforceLimit_clean x : clean x -> clean (enforceLimit x).
Proof.
  intros H. pose proof (clean_trim H) as Ht. unfold enforceLimit. cbv zeta.
  destruct (capture1 limitRegex x) as [digits|].
  - destruct (MAX_LIMIT <? JS.parseInt digits); [|exact Ht].
    destruct (replaceFirst_split limitClause
                (js "LIMIT " ++ JS.ofNat MAX_LIMIT) (JS.trim x))
      as [-> | [pre [w [y [l' [E [-> _]]]]]]]; [exact Ht|].
    rewrite E in Ht. apply clean_replace with (w := w); auto; discriminate.
  - destruct (detectOperationType x); try exact Ht.
    destruct (replaceFirst_split trailingSemicolons [] (JS.trim x))
      as [-> | [pre [w [y [l' [E [-> M]]]]]]].
    + rewrite <- (app_nil_r (js " LIMIT " ++ JS.ofNat DEFAULT_LIMIT)).
      apply clean_replace with (w := []); [discriminate|reflexivity|].
      cbn [app]. now rewrite app_nil_r.
    + rewrite (trailingSemicolons_end _ _ M) in E |- *. cbn [app].
      rewrite app_nil_r.
      rewrite <- (app_nil_r (js " LIMIT " ++ JS.ofNat DEFAULT_LIMIT)).
      apply clean_replace with (w := w); [discriminate|reflexivity|].
      now rewrite <- E.
Qed.

End Sanitized.

(** C9: the sanitized text of an accepted statement is the limit enforcer
    applied to the comment-stripped, trimmed statement, and no comment
    pattern ([--] to the line end, [/*] to [*/], [#] to the line end) matches
    in it.  It differs from the input by the removed comment even where the
    limit enforcer changes nothing. *)
Theorem sanitized_sql_is_stripped :
  (forall sql schema role allowed,
      is_valid (validateSQL sql schema role allowed) = true ->
      sanitized_sql (validateSQL sql schema role allowed)
      = Some (enforceLimit (removeComments sql))
      /\ commentFree (enforceLimit (removeComments sql)) = true)
  /\ (let q := js "DELETE FROM demo_orders -- all of them" in
      sanitized_sql (validateSQL q demoSchema creator None)
      = Some (js "DELETE FROM demo_orders")
      /\ enforceLimit (removeComments q) = removeComments q
      /\ commentFree q = false).
Proof.
  split; [|vm_compute; repeat split].
  intros sql schema role allowed Hv. split.
  - destruct (validateSQL_shape sql schema role allowed) as [[why E]|E];
      rewrite E in Hv |- *; [discriminate | reflexivity].
  - apply clean_commentFree, enforceLimit_clean, removeComments_clean.
Qed.

Lemma sanitized_sql_is_stripped_witness :
  is_valid (validateSQL (js "SELECT /* all */ name FROM demo_users # x")
                        demoSchema user None) = true
  /\ commentFree
       (enforceLimit (removeComments (js "SELECT /* all */ name FROM demo_users # x")))
     = true.
Proof.
  split; [vm_compute; reflexivity|].
  apply (proj1 sanitized_sql_is_stripped _ demoSchema user None).
  vm_compute. reflexivity.
Defined.

(** * Further properties of the validator and of its callers *)

(** ** What an accepted statement has passed *)

Section Accepted.

Lemma eqs_eq x y : JS.eqs x y = true <-> x = y.
Proof.
  revert y. induction x as [|a x IH]; intros [|b y]; cbn [JS.eqs];
    try (split; [discriminate | discriminate]); [tauto|].
  rewrite andb_true_iff, Ascii.eqb_eq, IH. split.
  - now intros [-> ->].
  - intros E. injection E as -> ->. auto.
Qed.

Lemma member_In x l : JS.member x l = true <-> In x l.
Proof.
  unfold JS.member. rewrite existsb_exists. split.
  - intros [y [Hy E]]. apply eqs_eq in E. now subst.
  - intros H. exists x. split; [exact H | now apply eqs_eq].
Qed.

Variables (sql : str) (schema : list SchemaTable) (role : Role)
          (allowed : option (list str)).

(** The conditions under which [validateSQL] returns an acceptance. *)
Lemma validateSQL_accepted :
  is_valid (validateSQL sql schema role allowed) = true ->
  (length (JS.trim sql) =? 0) = false
  /\ hasMultipleStatements sql = false
  /\ hasBlockedPatterns (removeComments sql) = None
  /\ opEqb (detectOperationType sql) DDL = false
  /\ existsb (opEqb (detectOperationType sql)) (allowedOpsOf role) = true
  /\ find (fun table =>
             negb (JS.member table
                     (map (fun t => JS.toLowerCase (table_name t)) schema)))
          (extractTableNames sql) = None
  /\ match role, allowed with
     | user, Some a =>
         find (fun table => negb (JS.member table (map JS.toLowerCase a)))
              (extractTableNames sql) = None
     | _, _ => True
     end
  /\ validateSQL sql schema role allowed
     = accept (enforceLimit (removeComments sql))
              (analyzeOperation (removeComments sql) schema).
Proof.
  intros H.
  destruct (validateSQL_shape sql schema role allowed) as [[why E]|E];
    [rewrite E in H; discriminate|].
  revert H. clear E. open_gate.
  destruct (length (JS.trim sql) =? 0); [discriminate|].
  destruct (hasMultipleStatements sql); [discriminate|].
  destruct (hasBlockedPatterns (removeComments sql)); [discriminate|].
  destruct (opEqb (detectOperationType sql) DDL); [discriminate|].
  destruct (existsb (opEqb (detectOperationType sql)) (allowedOpsOf role));
    [|discriminate]. cbn [negb].
  destruct (find _ (extractTableNames sql)); [discriminate|].
  destruct role, allowed as [a|]; cbv beta iota.
  - repeat next_check; try discriminate; intros _; repeat split; reflexivity.
  - repeat next_check; try discriminate; intros _; repeat split; reflexivity.
  - destruct (find _ (extractTableNames sql)); [discriminate|].
    repeat next_check; try discriminate; intros _; repeat split; reflexivity.
  - repeat next_check; try discriminate; intros _; repeat split; reflexivity.
Qed.

End Accepted.

Section AcceptedChecks.

Variables (sql : str) (schema : list SchemaTable) (role : Role)
          (allowed : option (list str)).
Hypothesis accepted : is_valid (validateSQL sql schema role allowed) = true.

Lemma opEqb_eq a b : opEqb a b = true <-> a = b.
Proof. destruct a, b; cbn; split; intros H; try discriminate; reflexivity. Qed.

Lemma validateSQL_accepted_columns :
  find (fun column =>
          negb (JS.member column skipList)
          && ((0 <? length (queriedColumns schema (extractTableNames sql)))
              && negb (JS.member column
                         (queriedColumns schema (extractTableNames sql)))))
       (extractColumnNames sql) = None.
Proof.
  destruct (validateSQL_accepted sql schema role allowed accepted)
    as [E1 [E2 [E3 [E4 [E5 [E6 [E7 _]]]]]]].
  revert accepted. open_gate. rewrite E1, E2, E3, E4, E5, E6. cbn [negb].
  unfold queriedColumns.
  destruct role, allowed as [a|]; cbv beta iota; try rewrite E7;
    next_check; (discriminate || reflexivity).
Qed.


(** X2: an accepted statement is classified SELECT, INSERT, UPDATE or DELETE
    (never DDL, never UNKNOWN), and its analysis carries that kind. *)
Theorem accepted_kind :
  In (detectOperationType sql) [SELECT; INSERT; UPDATE; DELETE]
  /\ option_map operation_type
                (operation_analysis (validateSQL sql schema role allowed))
     = Some (detectOperationType sql).
Proof.
  destruct (validateSQL_accepted sql schema role allowed accepted)
    as [_ [_ [_ [_ [E5 [_ [_ E8]]]]]]].
  split.
  - apply existsb_exists in E5 as [op [Hin E]]. apply opEqb_eq in E. subst op.
    destruct role; exact Hin.
  - rewrite E8. cbn [operation_analysis accept option_map].
    now rewrite analyzeOperation_type, detectOperationType_stripped.
Qed.

(** X3: every table name extracted from an accepted statement is, in lower
    case, the name of a table of the schema; for the role [user] with an
    allowlist it is also, in lower case, on the allowlist. *)
Theorem accepted_tables_known :
  forall table,
    In table (extractTableNames sql) ->
    (exists t, In t schema /\ JS.toLowerCase (table_name t) = table)
    /\ (forall a, role = user -> allowed = Some a ->
                  exists name, In name a /\ JS.toLowerCase name = table).
Proof.
  destruct (validateSQL_accepted sql schema role allowed accepted)
    as [_ [_ [_ [_ [_ [E6 [E7 _]]]]]]].
  intros table Hin. split.
  - pose proof (find_none _ _ E6 table Hin) as H. cbv beta in H.
    apply negb_false_iff, member_In, in_map_iff in H as [t [Ht Hs]]. eauto.
  - intros a -> ->.
    pose proof (find_none _ _ E7 table Hin) as H. cbv beta in H.
    apply negb_false_iff, member_In, in_map_iff in H as [name [Hn Hs]]. eauto.
Qed.

(** X4: every column name extracted from an accepted statement is on the
    skip list, or is, in lower case, a column of a schema table that the
    statement references, unless the referenced schema tables have no column
    at all. *)
Theorem accepted_columns_known :
  forall column,
    In column (extractColumnNames sql) ->
    In column skipList
    \/ queriedColumns schema (extractTableNames sql) = []
    \/ exists t c,
         In t schema
         /\ In (JS.toLowerCase (table_name t)) (extractTableNames sql)
         /\ In c (columns t) /\ JS.toLowerCase (column_name c) = column.
Proof.
  intros column Hin.
  pose proof (find_none _ _ validateSQL_accepted_columns column Hin) as H.
  cbv beta in H.
  destruct (JS.member column skipList) eqn:S; [left; now apply member_In|].
  right. cbn [negb andb] in H.
  destruct (queriedColumns schema (extractTableNames sql)) as [|q0 qs] eqn:Q;
    [now left|].
  right. cbn [length Nat.ltb Nat.leb andb] in H.
  apply negb_false_iff, member_In in H. rewrite <- Q in H.
  unfold queriedColumns in H. apply in_flat_map in H as [t [Ht Hc]].
  apply filter_In in Ht as [Ht Hm]. apply member_In in Hm.
  apply in_map_iff in Hc as [c [Hc1 Hc2]]. exists t, c. auto.
Qed.

End AcceptedChecks.

Lemma validateSQL_without_allowlist sql schema role a :
  is_valid (validateSQL sql schema role (Some a)) = true ->
  validateSQL sql schema role None = validateSQL sql schema role (Some a).
Proof.
  intros H.
  destruct (validateSQL_accepted sql schema role (Some a) H)
    as [E1 [E2 [E3 [E4 [E5 [E6 [E7 _]]]]]]].
  open_gate. rewrite E1, E2, E3, E4, E5, E6. cbn [negb].
  destruct role; cbv beta iota; [reflexivity|]. now rewrite E7.
Qed.

(** X5: an allowlist only restricts: a statement accepted with an allowlist
    gets the same result without one. *)
Theorem allowlist_only_restricts sql schema role a :
  is_valid (validateSQL sql schema role (Some a)) = true ->
  validateSQL sql schema role None = validateSQL sql schema role (Some a).
Proof. exact (validateSQL_without_allowlist sql schema role a). Qed.

Lemma allowlist_only_restricts_witness :
  is_valid (validateSQL (js "SELECT name FROM demo_users") demoSchema user
                        (Some [js "DEMO_USERS"])) = true
  /\ validateSQL (js "SELECT name FROM demo_users") demoSchema user None
     = validateSQL (js "SELECT name FROM demo_users") demoSchema user
                   (Some [js "DEMO_USERS"]).
Proof.
  split; [vm_compute; reflexivity|].
  apply allowlist_only_restricts. vm_compute. reflexivity.
Defined.


Lemma accepted_kind_witness :
  is_valid (validateSQL (js "update demo_users set name = 'x' where id = 1")
                        demoSchema creator None) = true
  /\ In (detectOperationType (js "update demo_users set name = 'x' where id = 1"))
        [SELECT; INSERT; UPDATE; DELETE].
Proof.
  split; [vm_compute; reflexivity|].
  apply (accepted_kind (js "update demo_users set name = 'x' where id = 1")
                       demoSchema creator None).
  vm_compute. reflexivity.
Defined.

Lemma accepted_tables_known_witness :
  is_valid (validateSQL (js "SELECT * FROM Demo_Users") demoSchema user None) = true
  /\ In (js "demo_users") (extractTableNames (js "SELECT * FROM Demo_Users"))
  /\ exists t, In t demoSchema /\ JS.toLowerCase (table_name t) = js "demo_users".
Proof.
  split; [vm_compute; reflexivity|]. split; [vm_compute; auto|].
  apply (accepted_tables_known (js "SELECT * FROM Demo_Users") demoSchema user None).
  - vm_compute. reflexivity.
  - vm_compute. auto.
Defined.

Lemma accepted_columns_known_witness :
  is_valid (validateSQL (js "SELECT email FROM demo_users") demoSchema user None)
  = true
  /\ In (js "email") (extractColumnNames (js "SELECT email FROM demo_users")).
Proof.
  split; [vm_compute; reflexivity|].
  destruct (accepted_columns_known (js "SELECT email FROM demo_users")
              demoSchema user None ltac:(vm_compute; reflexivity) (js "email"))
    as [H|[H|H]]; vm_compute; auto.
Defined.

(** ** Risk analysis and explanations *)

Lemma analyzeOperation_confirmation sql schema :
  requires_confirmation (analyzeOperation sql schema) = false
  <-> detectOperationType sql = SELECT.
Proof.
  unfold analyzeOperation. cbv zeta.
  destruct (detectOperationType sql);
    repeat match goal with
           | |- context [if ?b then _ else _] => destruct b
           end;
    cbn; split; intros; congruence.
Qed.

(** X6: the analysis requires a confirmation exactly when the statement is
    not classified SELECT; exactly then its risk level is not [safe] and it
    carries a warning. *)
Theorem confirmation_iff_not_select sql schema :
  let a := analyzeOperation sql schema in
  (requires_confirmation a = false <-> detectOperationType sql = SELECT)
  /\ (risk_level a = safe <-> detectOperationType sql = SELECT)
  /\ (warnings a = [] <-> detectOperationType sql = SELECT).
Proof.
  cbv zeta. unfold analyzeOperation. cbv zeta.
  destruct (detectOperationType sql);
    repeat match goal with
           | |- context [if ?b then _ else _] => destruct b
           end;
    cbn; repeat split; intros; congruence.
Qed.

Lemma validateSQL_rejected sql schema role allowed :
  is_valid (validateSQL sql schema role allowed) = false ->
  exists c r, validateSQL sql schema role allowed = reject (c :: r).
Proof.
  open_gate. repeat next_check; try discriminate; intros _;
    unfold emptyMessage, multipleMessage, blockedMessage, ddlMessage,
      roleMessage, tableMessage, deniedMessage, columnMessage;
    cbn [js list_ascii_of_string app]; eauto.
Qed.

(** X7: the explanation of a rejected result is its reason, word for word;
    the explanation of an accepted result is the fixed safe-to-execute
    sentence exactly when the statement is classified SELECT. *)
Theorem explanation_of_result sql schema role allowed :
  let v := validateSQL sql schema role allowed in
  (is_valid v = false -> reason v = Some (getBlockedExplanation v))
  /\ (is_valid v = true ->
      (getBlockedExplanation v = safeExplanation
       <-> detectOperationType sql = SELECT)).
Proof.
  cbv zeta. split; intros H.
  - destruct (validateSQL_rejected _ _ _ _ H) as [c [r ->]]. reflexivity.
  - destruct (validateSQL_accepted sql schema role allowed H)
      as [_ [_ [_ [_ [_ [_ [_ ->]]]]]]].
    unfold getBlockedExplanation. cbn [is_valid operation_analysis accept].
    pose proof (analyzeOperation_confirmation (removeComments sql) schema) as C.
    rewrite detectOperationType_stripped in C.
    destruct (requires_confirmation (analyzeOperation (removeComments sql) schema)).
    + split; [intros E; discriminate E|].
      intros E. apply C in E. discriminate.
    + split; [intros _; now apply C | reflexivity].
Qed.

(** ** The handlers *)

Lemma user_allowlist_rejects sql schema a table :
  In table (extractTableNames sql) ->
  JS.member table (map JS.toLowerCase a) = false ->
  is_valid (validateSQL sql schema user (Some a)) = false.
Proof.
  intros Hin Hout.
  destruct (is_valid (validateSQL sql schema user (Some a))) eqn:V; [|reflexivity].
  destruct (validateSQL_accepted sql schema user (Some a) V)
    as [_ [_ [_ [_ [_ [_ [E7 _]]]]]]].
  pose proof (find_none _ _ E7 table Hin) as H. cbv beta in H.
  rewrite Hout in H. discriminate.
Qed.

(** X8: when the [validate-query] request names no allowlist and the role is
    [user] or absent, a statement one of whose extracted tables is neither
    [demo_users] nor [demo_products] is answered as not valid, whatever the
    schema. *)
Theorem respond_default_allowlist q r s table :
  r = None \/ r = Some user ->
  In table (extractTableNames q) ->
  table <> js "demo_users" -> table <> js "demo_products" ->
  ValidateQuery.is_valid
    (ValidateQuery.respond (ValidateQuery.mkRequest (Some q) r s None)) = false.
Proof.
  intros Hr Hin H1 H2. unfold ValidateQuery.respond.
  cbn [ValidateQuery.sql ValidateQuery.role ValidateQuery.schema
       ValidateQuery.allowed_tables].
  destruct (length (JS.trim q) =? 0); [reflexivity|]. cbv zeta.
  assert (E : is_valid
                (validateSQL q match s with Some s0 => s0 | None => demoSchema end
                             user (Some ValidateQuery.defaultAllowedTables)) = false).
  { apply user_allowlist_rejects with (table := table); [exact Hin|].
    destruct (JS.member table
                (map JS.toLowerCase ValidateQuery.defaultAllowedTables)) eqn:M;
      [|reflexivity].
    apply member_In in M. exfalso. destruct M as [M|[M|[]]];
      [apply H1 | apply H2]; symmetry; exact M. }
  assert (Er : match r with Some r0 => r0 | None => user end = user)
    by (destruct Hr as [-> | ->]; reflexivity).
  rewrite Er.
  destruct (validateSQL q _ user _) as [valid why sanitized analysis].
  exact E.
Qed.

Lemma respond_default_allowlist_witness :
  In (js "demo_orders") (extractTableNames (js "SELECT * FROM demo_orders"))
  /\ ValidateQuery.is_valid
       (ValidateQuery.respond
          (ValidateQuery.mkRequest (Some (js "SELECT * FROM demo_orders"))
                                   None None None)) = false.
Proof.
  split; [vm_compute; auto|].
  apply respond_default_allowlist with (table := js "demo_orders").
  - left. reflexivity.
  - vm_compute. auto.
  - discriminate.
  - discriminate.
Defined.

(** X9: [execute-query] validates again without any allowlist: a statement
    that [validate-query] answers as valid for a role and a schema, under
    whatever allowlist, is not answered 400 by [execute-query] for the same
    role and schema. *)
Theorem validated_then_revalidated q r s a c :
  ValidateQuery.is_valid
    (ValidateQuery.respond (ValidateQuery.mkRequest (Some q) r (Some s) a)) = true ->
  forall message,
    ExecuteQuery.route (ExecuteQuery.mkRequest (Some q) r (Some s) c false)
    <> ExecuteQuery.BadRequest message.
Proof.
  unfold ValidateQuery.respond, ExecuteQuery.route.
  cbn [ValidateQuery.sql ValidateQuery.role ValidateQuery.schema
       ValidateQuery.allowed_tables ExecuteQuery.sql ExecuteQuery.role
       ExecuteQuery.schema ExecuteQuery.confirmed ExecuteQuery.skip_revalidation].
  destruct (length (JS.trim q) =? 0); [discriminate|]. cbv zeta.
  set (role := match r with Some r0 => r0 | None => user end).
  set (allowed := match a with
                  | Some a0 => a0
                  | None => ValidateQuery.defaultAllowedTables
                  end).
  intros H message.
  assert (V : is_valid (validateSQL q s role (Some allowed)) = true).
  { destruct (validateSQL q s role (Some allowed)); exact H. }
  rewrite (validateSQL_without_allowlist _ _ _ _ V), V.
  cbn [negb].
  destruct (requires_confirmation (analyzeOperation q s) && negb c);
    [discriminate|].
  destruct (detectOperationType q);
    try discriminate;
    destruct (ExecuteQuery.extractPrimaryTable q) as [[|]|]; discriminate.
Qed.

Lemma validated_then_revalidated_witness :
  ValidateQuery.is_valid
    (ValidateQuery.respond
       (ValidateQuery.mkRequest (Some (js "SELECT name FROM demo_users"))
                                (Some user) (Some demoSchema) None)) = true
  /\ ExecuteQuery.route
       (ExecuteQuery.mkRequest (Some (js "SELECT name FROM demo_users"))
                               (Some user) (Some demoSchema) false false)
     <> ExecuteQuery.BadRequest (js "sql is required").
Proof.
  split; [vm_compute; reflexivity|].
  apply (validated_then_revalidated (js "SELECT name FROM demo_users")
           (Some user) demoSchema None false).
  vm_compute. reflexivity.
Defined.

(** X10: a request that [execute-query] takes to the database holds a
    statement classified SELECT, INSERT, UPDATE or DELETE, with a table name
    read from its text; it is classified SELECT unless the request is
    confirmed, and it has passed [validateSQL] unless revalidation is
    skipped. *)
Theorem route_to_database body op table a :
  ExecuteQuery.route body = ExecuteQuery.ToDatabase op table a ->
  exists q,
    ExecuteQuery.sql body = Some q
    /\ op = detectOperationType q
    /\ In op [SELECT; INSERT; UPDATE; DELETE]
    /\ ExecuteQuery.extractPrimaryTable q = Some table /\ table <> []
    /\ (ExecuteQuery.confirmed body = false -> op = SELECT)
    /\ (ExecuteQuery.skip_revalidation body = false ->
        is_valid
          (validateSQL q
             match ExecuteQuery.schema body with
             | Some s => s
             | None => ExecuteQuery.DEFAULT_SCHEMA
             end
             match ExecuteQuery.role body with Some r => r | None => user end
             None) = true).
Proof.
  unfold ExecuteQuery.route. destruct (ExecuteQuery.sql body) as [q|];
    [|discriminate].
  destruct (length (JS.trim q) =? 0); [discriminate|]. cbv zeta.
  set (schema := match ExecuteQuery.schema body with
                 | Some s => s
                 | None => ExecuteQuery.DEFAULT_SCHEMA
                 end).
  set (role := match ExecuteQuery.role body with Some r => r | None => user end).
  intros H. exists q. split; [reflexivity|].
  assert (V : ExecuteQuery.skip_revalidation body = false ->
              is_valid (validateSQL q schema role None) = true).
  { intros S. rewrite S in H. cbn [negb] in H.
    destruct (is_valid (validateSQL q schema role None)); [reflexivity|].
    discriminate. }
  destruct (if negb (ExecuteQuery.skip_revalidation body) then _ else None);
    [discriminate|].
  pose proof (analyzeOperation_confirmation q schema) as C.
  destruct (requires_confirmation (analyzeOperation q schema)) eqn:R;
    cbn [andb] in H.
  - destruct (ExecuteQuery.confirmed body) eqn:Cf; [|discriminate].
    cbn [negb] in H.
    destruct (detectOperationType q) eqn:Op; try discriminate;
      destruct (ExecuteQuery.extractPrimaryTable q) as [[|c0 t0]|];
      try discriminate; injection H as <- <- <-;
      repeat split; cbn; auto; discriminate.
  - assert (Op : detectOperationType q = SELECT) by now apply C.
    rewrite Op in H |- *.
    destruct (ExecuteQuery.extractPrimaryTable q) as [[|c0 t0]|];
      try discriminate; injection H as <- <- <-;
      repeat split; cbn; auto; discriminate.
Qed.

Lemma route_to_database_witness :
  ExecuteQuery.route
    (ExecuteQuery.mkRequest (Some (js "SELECT * FROM demo_users")) None None
                            false false)
  = ExecuteQuery.ToDatabase SELECT (js "demo_users")
      (analyzeOperation (js "SELECT * FROM demo_users") ExecuteQuery.DEFAULT_SCHEMA)
  /\ ExecuteQuery.extractPrimaryTable (js "SELECT * FROM demo_users")
     = Some (js "demo_users").
Proof.
  split; [vm_compute; reflexivity|].
  destruct (@route_to_database
              (ExecuteQuery.mkRequest (Some (js "SELECT * FROM demo_users"))
                                      None None false false)
              SELECT (js "demo_users")
              (analyzeOperation (js "SELECT * FROM demo_users")
                                ExecuteQuery.DEFAULT_SCHEMA)
              ltac:(vm_compute; reflexivity))
    as [q [Hq [_ [_ [Ht _]]]]].
  cbn [ExecuteQuery.sql] in Hq. injection Hq as <-. exact Ht.
Defined.

(** X11: without the [confirmed] flag, [execute-query] never takes a
    statement that is not classified SELECT to the database: it answers 400
    or asks for the confirmation. *)
Theorem unconfirmed_write_not_executed body q :
  ExecuteQuery.sql body = Some q ->
  ExecuteQuery.confirmed body = false ->
  detectOperationType q <> SELECT ->
  (exists message, ExecuteQuery.route body = ExecuteQuery.BadRequest message)
  \/ (exists analysis warning,
        ExecuteQuery.route body
        = ExecuteQuery.NeedsConfirmation (detectOperationType q) analysis warning
        /\ requires_confirmation analysis = true).
Proof.
  intros Hq Hc Hop. unfold ExecuteQuery.route. rewrite Hq, Hc.
  destruct (length (JS.trim q) =? 0); [left; eauto|]. cbv zeta.
  destruct (if negb (ExecuteQuery.skip_revalidation body) then _ else None);
    [left; eauto|].
  set (schema := match ExecuteQuery.schema body with
                 | Some s => s
                 | None => ExecuteQuery.DEFAULT_SCHEMA
                 end).
  pose proof (analyzeOperation_confirmation q schema) as C.
  destruct (requires_confirmation (analyzeOperation q schema)) eqn:R.
  - right. cbn [andb negb]. eauto.
  - exfalso. apply Hop. now apply C.
Qed.

Lemma unconfirmed_write_not_executed_witness :
  detectOperationType (js "DELETE FROM demo_orders WHERE id = 1") <> SELECT
  /\ ((exists message,
          ExecuteQuery.route
            (ExecuteQuery.mkRequest (Some (js "DELETE FROM demo_orders WHERE id = 1"))
                                    (Some creator) None false true)
          = ExecuteQuery.BadRequest message)
      \/ (exists analysis warning,
             ExecuteQuery.route
               (ExecuteQuery.mkRequest
                  (Some (js "DELETE FROM demo_orders WHERE id = 1"))
                  (Some creator) None false true)
             = ExecuteQuery.NeedsConfirmation
                 (detectOperationType (js "DELETE FROM demo_orders WHERE id = 1"))
                 analysis warning
             /\ requires_confirmation analysis = true)).
Proof.
  split; [vm_compute; discriminate|].
  apply unconfirmed_write_not_executed.
  - reflexivity.
  - reflexivity.
  - vm_compute. discriminate.
Defined.

(** X12: a statement whose action type is STRUCTURAL or UNKNOWN is never
    accepted by [validateSQL]; the action type is READ exactly when the
    analysis requires no confirmation. *)
Theorem action_type_and_validation sql schema role allowed :
  (determineActionType sql = STRUCTURAL \/ determineActionType sql = UNKNOWN_ACTION ->
   is_valid (validateSQL sql schema role allowed) = false)
  /\ (determineActionType sql = READ
      <-> requires_confirmation (analyzeOperation sql schema) = false).
Proof.
  split.
  - intros H.
    destruct (is_valid (validateSQL sql schema role allowed)) eqn:V; [|reflexivity].
    destruct (validateSQL_accepted sql schema role allowed V)
      as [_ [_ [_ [_ [E5 _]]]]].
    apply existsb_exists in E5 as [op [Hin E]]. apply opEqb_eq in E. subst op.
    unfold determineActionType in H.
    destruct role; cbn in Hin;
      destruct Hin as [E|[E|[E|[E|[]]]]]; rewrite <- E in H;
      destruct H; discriminate.
  - rewrite analyzeOperation_confirmation. unfold determineActionType.
    destruct (detectOperationType sql); split; intros; congruence.
Qed.

Lemma explanation_of_result_witness :
  is_valid (validateSQL (js "SELECT * FROM ghost_table") demoSchema user None) = false
  /\ reason (validateSQL (js "SELECT * FROM ghost_table") demoSchema user None)
     = Some (getBlockedExplanation
               (validateSQL (js "SELECT * FROM ghost_table") demoSchema user None)).
Proof.
  split; [vm_compute; reflexivity|].
  apply (proj1 (explanation_of_result (js "SELECT * FROM ghost_table")
                                      demoSchema user None)).
  vm_compute. reflexivity.
Defined.

Lemma action_type_and_validation_witness :
  (determineActionType (js "ALTER TABLE demo_users ADD c int") = STRUCTURAL
   \/ determineActionType (js "ALTER TABLE demo_users ADD c int") = UNKNOWN_ACTION)
  /\ is_valid (validateSQL (js "ALTER TABLE demo_users ADD c int")
                           demoSchema creator None) = false.
Proof.
  split; [left; vm_compute; reflexivity|].
  apply (proj1 (action_type_and_validation (js "ALTER TABLE demo_users ADD c int")
                                           demoSchema creator None)).
  left. vm_compute. reflexivity.
Defined.

(** ** Comment stripping and statement splitting *)

(** X13: stripping comments is idempotent; the stripped text is trimmed and
    none of the three comment patterns matches in it. *)
Theorem removeComments_normal_form x :
  removeComments (removeComments x) = removeComments x
  /\ JS.trim (removeComments x) = removeComments x
  /\ commentFree (removeComments x) = true.
Proof.
  split; [apply removeComments_idem|]. split; [apply removeComments_trimmed|].
  apply clean_commentFree, removeComments_clean.
Qed.

Section Characters.

Variable P : ascii -> Prop.

(** A global replacement only keeps characters of the text and brings in
    characters of the replacement. *)
Lemma render_Forall r by_ :
  Forall P by_ ->
  forall rt skip l, Forall P rt -> Forall P (render by_ (pieces r skip l rt)).
Proof.
  intros Hby. induction rt as [|c t IH]; intros skip l H.
  - destruct skip; cbn [pieces]; [|constructor].
    destruct (matchAt r l []); cbn; [|constructor].
    rewrite app_nil_r. exact Hby.
  - inversion H as [|? ? Hc Ht]; subst.
    destruct skip as [|k]; cbn [pieces]; [|now apply IH].
    destruct (matchAt r l (c :: t)) as [y|].
    + rewrite render_hit. apply Forall_app. split; [exact Hby|].
      destruct (length (c :: t) - length (right y)).
      * rewrite render_keep. constructor; [exact Hc | now apply IH].
      * now apply IH.
    + rewrite render_keep. constructor; [exact Hc | now apply IH].
Qed.

Lemma replaceAll_Forall r by_ x :
  Forall P by_ -> Forall P x -> Forall P (replaceAll r by_ x).
Proof. intros Hby Hx. now apply render_Forall. Qed.

Lemma trim_Forall x : Forall P x -> Forall P (JS.trim x).
Proof.
  intros H. destruct (trim_decompose x) as [a [b [E _]]]. rewrite E in H.
  apply Forall_app in H as [_ H]. now apply Forall_app in H as [H _].
Qed.

End Characters.

Lemma split_no_separator sep x :
  Forall (fun c => c <> sep) x -> JS.split sep x = [x].
Proof.
  induction 1 as [|c t Hc Ht IH]; [reflexivity|].
  cbn [JS.split]. rewrite IH.
  destruct (Ascii.eqb_spec c sep); [contradiction|reflexivity].
Qed.

Lemma includes_char p x :
  JS.includes [p] x = false <-> Forall (fun c => c <> p) x.
Proof.
  induction x as [|c t IH].
  - split; [constructor|reflexivity].
  - cbn [JS.includes JS.startsWith]. rewrite andb_true_r, orb_false_iff, IH.
    split.
    + intros [E H]. constructor; [|exact H]. intros ->.
      now rewrite Ascii.eqb_refl in E.
    + intros H. inversion H as [|? ? Hc Ht]; subst. split; [|exact Ht].
      destruct (Ascii.eqb_spec p c); [now subst|reflexivity].
Qed.

(** X14: a statement without a semicolon is never taken for several
    statements. *)
Theorem no_semicolon_single_statement sql :
  JS.includes (js ";") sql = false -> hasMultipleStatements sql = false.
Proof.
  intros H. apply includes_char in H.
  assert (Hsp : Forall (fun c => c <> ";"%char) (js " "))
    by (repeat constructor; discriminate).
  assert (Hc : Forall (fun c => c <> ";"%char) (removeComments sql)).
  { rewrite removeComments_eq. apply trim_Forall.
    repeat (apply replaceAll_Forall; [exact Hsp|]). exact H. }
  unfold hasMultipleStatements, statements. cbv zeta.
  rewrite split_no_separator
    by (repeat (apply replaceAll_Forall; [constructor|]); exact Hc).
  cbn [filter]. destruct (0 <? length _); reflexivity.
Qed.

Lemma no_semicolon_single_statement_witness :
  JS.includes (js ";") (js "SELECT 'a' /* ; */ FROM demo_users") = true
  /\ JS.includes (js ";") (js "SELECT 'a' FROM demo_users") = false
  /\ hasMultipleStatements (js "SELECT 'a' FROM demo_users") = false.
Proof.
  split; [vm_compute; reflexivity|]. split; [vm_compute; reflexivity|].
  apply no_semicolon_single_statement. vm_compute. reflexivity.
Defined.

(** ** The extractors *)

Section Extracted.

(** Names in lower case, each once. *)
Let tidy (l : list str) : Prop :=
  NoDup l /\ Forall (fun name => JS.toLowerCase name = name) l.

Lemma lower_idem c : JS.lower (JS.lower c) = JS.lower c.
Proof. destruct c as [[] [] [] [] [] [] [] []]; reflexivity. Qed.

Lemma toLowerCase_idem x : JS.toLowerCase (JS.toLowerCase x) = JS.toLowerCase x.
Proof.
  unfold JS.toLowerCase. rewrite map_map. apply map_ext. exact lower_idem.
Qed.

Lemma setAdd_tidy l x : tidy l -> JS.toLowerCase x = x -> tidy (JS.setAdd l x).
Proof.
  intros [Hn Hl] Hx. unfold JS.setAdd.
  destruct (JS.member x l) eqn:M; [split; assumption|]. split.
  - apply NoDup_app; [exact Hn | repeat constructor; intros [] | ].
    intros y Hy [<-|[]]. apply member_In in Hy. congruence.
  - apply Forall_app. split; [exact Hl | repeat constructor; exact Hx].
Qed.

Lemma addMatches_tidy r text set : tidy set -> tidy (addMatches r text set).
Proof.
  unfold addMatches. revert set.
  induction (matchAll r text) as [|m ms IH]; intros set H; [exact H|].
  cbn [fold_left]. apply IH. destruct (group 1 (snd m)); [|exact H].
  apply setAdd_tidy; [exact H | apply toLowerCase_idem].
Qed.

Lemma fold_setAdd_tidy (f : str -> str) l set :
  (forall x, JS.toLowerCase (f x) = f x) ->
  tidy set -> tidy (fold_left JS.setAdd (map f l) set).
Proof.
  intros Hf. revert set. induction l as [|x l IH]; intros set H; [exact H|].
  cbn [map fold_left]. apply IH. now apply setAdd_tidy.
Qed.

Lemma fold_leading_tidy l set :
  tidy set ->
  tidy (fold_left
          (fun acc part =>
             match capture1 leadingIdent (JS.trim part) with
             | Some col => JS.setAdd acc (JS.toLowerCase col)
             | None => acc
             end) l set).
Proof.
  revert set. induction l as [|part l IH]; intros set H; [exact H|].
  cbn [fold_left]. apply IH.
  destruct (capture1 leadingIdent (JS.trim part)); [|exact H].
  apply setAdd_tidy; [exact H | apply toLowerCase_idem].
Qed.

(** X15: the extracted table names and the extracted column names are in
    lower case and free of duplicates. *)
Theorem extracted_names_tidy sql :
  (NoDup (extractTableNames sql)
   /\ Forall (fun name => JS.toLowerCase name = name) (extractTableNames sql))
  /\ (NoDup (extractColumnNames sql)
      /\ Forall (fun name => JS.toLowerCase name = name) (extractColumnNames sql)).
Proof.
  assert (T0 : tidy []) by (split; constructor).
  change (tidy (extractTableNames sql) /\ tidy (extractColumnNames sql)).
  split.
  - unfold extractTableNames. cbv zeta. cbn [fold_left].
    repeat apply addMatches_tidy. exact T0.
  - unfold extractColumnNames. cbv zeta.
    repeat match goal with
           | |- tidy (match ?o with Some _ => _ | None => _ end) =>
               destruct o
           | |- tidy (addMatches _ _ _) => apply addMatches_tidy
           | |- tidy (fold_left JS.setAdd (map _ _) _) =>
               apply fold_setAdd_tidy;
               [intros x; apply toLowerCase_idem|]
           | |- tidy (if ?b then _ else _) => destruct b
           | |- tidy (fold_left _ _ _) => apply fold_leading_tidy
           | |- tidy [] => exact T0
           end.
Qed.

End Extracted.

(** ** Letter case *)

Section CaseMap.

Variable f : ascii -> ascii.
Hypothesis f_word : forall c, JS.isWord (f c) = JS.isWord c.
Hypothesis f_line : forall c, JS.isLineTerminator (f c) = JS.isLineTerminator c.
Hypothesis f_space : forall c, JS.isSpace (f c) = JS.isSpace c.

Lemma mapSt_right_length x : length (right (mapSt f x)) = length (right x).
Proof. cbn. apply length_map. Qed.

Lemma consumed_map x y : consumed (mapSt f x) (mapSt f y) = map f (consumed x y).
Proof.
  unfold consumed. cbn [mapSt left]. rewrite !length_map, firstn_map.
  symmetry. apply map_rev.
Qed.

Lemma atEnd_map m x : atEnd m (mapSt f x) = atEnd m x.
Proof.
  unfold atEnd. cbn [mapSt right]. destruct (right x); cbn [map]; [reflexivity|].
  now rewrite f_line.
Qed.

Lemma atWordBoundary_map x : atWordBoundary (mapSt f x) = atWordBoundary x.
Proof.
  unfold atWordBoundary. cbn [mapSt right left].
  destruct (left x), (right x); cbn [map]; now rewrite ?f_word.
Qed.

Lemma rep_map (ma : (st -> option st) -> st -> option st) g :
  (forall k k' x,
      (forall y, k' (mapSt f y) = option_map (mapSt f) (k y)) ->
      ma k' (mapSt f x) = option_map (mapSt f) (ma k x)) ->
  forall n k k' x,
    (forall y, k' (mapSt f y) = option_map (mapSt f) (k y)) ->
    rep ma g k' n (mapSt f x) = option_map (mapSt f) (rep ma g k n x).
Proof.
  intros Hma. induction n as [|n IH]; intros k k' x H; [apply H|].
  rewrite !rep_step. cbv zeta.
  rewrite (Hma (fun y => if length (right y) <? length (right x)
                         then rep ma g k n y else None)
               (fun y => if length (right y) <? length (right (mapSt f x))
                         then rep ma g k' n y else None) x).
  - rewrite (H x).
    destruct g, (ma _ x), (k x); reflexivity.
  - intros y. rewrite !mapSt_right_length.
    destruct (length (right y) <? length (right x)); [|reflexivity].
    now apply IH.
Qed.

(** Matching a stable pattern commutes with the character map. *)
Lemma mt_map r :
  stable f r ->
  forall k k' x,
    (forall y, k' (mapSt f y) = option_map (mapSt f) (k y)) ->
    mt r k' (mapSt f x) = option_map (mapSt f) (mt r k x).
Proof.
  induction r as [|p|a IHa b IHb|a IHa b IHb|g a IHa|i a IHa| |m|];
    intros S k k' x H; cbn [mt].
  - apply H.
  - cbn [mapSt right left caps]. destruct (right x) as [|c t]; [reflexivity|].
    cbn [map]. cbn [stable] in S. rewrite S. destruct (p c); [|reflexivity].
    exact (H (mkSt (c :: left x) t (caps x))).
  - destruct S as [Sa Sb]. apply IHa; [exact Sa|].
    intros y. now apply IHb.
  - destruct S as [Sa Sb]. rewrite (IHa Sa k k' x H), (IHb Sb k k' x H).
    destruct (mt a k x); reflexivity.
  - rewrite mapSt_right_length. apply rep_map; [|exact H].
    intros k0 k0' x0 H0. now apply IHa.
  - apply IHa; [exact S|]. intros y.
    rewrite consumed_map.
    exact (H (mkSt (left y) (right y) ((i, consumed x y) :: caps y))).
  - cbn [mapSt left]. destruct (left x); cbn [map]; [apply H | reflexivity].
  - rewrite atEnd_map. destruct (atEnd m x); [apply H | reflexivity].
  - rewrite atWordBoundary_map. destruct (atWordBoundary x); [apply H | reflexivity].
Qed.

Lemma matchAt_map r l rt :
  stable f r ->
  matchAt r (map f l) (map f rt) = option_map (mapSt f) (matchAt r l rt).
Proof.
  intros S. unfold matchAt.
  exact (mt_map r S Some Some (mkSt l rt []) (fun y => eq_refl)).
Qed.

Lemma search_map r rt :
  stable f r ->
  forall l, search r (map f l) (map f rt)
            = option_map (fun p => (fst p, mapSt f (snd p))) (search r l rt).
Proof.
  intros S. induction rt as [|c t IH]; intros l; cbn [search map].
  - pose proof (matchAt_map r l [] S) as E; cbn [map] in E; rewrite E; clear E. rewrite length_map.
    destruct (matchAt r l []); reflexivity.
  - pose proof (matchAt_map r l (c :: t) S) as E; cbn [map] in E; rewrite E; clear E. rewrite length_map.
    destruct (matchAt r l (c :: t)); [reflexivity|]. exact (IH (c :: l)).
Qed.

Lemma pieces_map r rt :
  stable f r ->
  forall skip l, pieces r skip (map f l) (map f rt)
                 = map (mapPiece f) (pieces r skip l rt).
Proof.
  intros S. induction rt as [|c t IH]; intros skip l.
  - destruct skip; cbn [pieces map]; [|reflexivity].
    pose proof (matchAt_map r l [] S) as E; cbn [map] in E; rewrite E; clear E. destruct (matchAt r l []); reflexivity.
  - destruct skip as [|k]; cbn [pieces map]; [|exact (IH k (c :: l))].
    pose proof (matchAt_map r l (c :: t) S) as E; cbn [map] in E; rewrite E; clear E.
    destruct (matchAt r l (c :: t)) as [y|]; cbn [option_map map].
    + rewrite mapSt_right_length.
      change (f c :: map f t) with (map f (c :: t)).
      rewrite length_map, firstn_map. cbn [mapPiece]. f_equal.
      destruct (length (c :: t) - length (right y)) as [|m]; cbn [map mapPiece];
        [f_equal; exact (IH 0 (c :: l)) | exact (IH m (c :: l))].
    + f_equal. exact (IH 0 (c :: l)).
Qed.

Lemma render_map by_ ps :
  render (map f by_) (map (mapPiece f) ps) = map f (render by_ ps).
Proof.
  induction ps as [|[c|w y] ps IH]; [reflexivity| |].
  - cbn [map mapPiece]. rewrite !render_keep, IH. reflexivity.
  - cbn [map mapPiece]. rewrite !render_hit, IH, map_app. reflexivity.
Qed.

Lemma replaceAll_map r by_ x :
  stable f r -> map f by_ = by_ ->
  replaceAll r by_ (map f x) = map f (replaceAll r by_ x).
Proof.
  intros S Hby. unfold replaceAll.
  pose proof (pieces_map r x S 0 []) as E. cbn [map] in E. rewrite E.
  rewrite <- Hby at 1. apply render_map.
Qed.

Lemma dropWhile_map x :
  JS.dropWhile JS.isSpace (map f x) = map f (JS.dropWhile JS.isSpace x).
Proof.
  induction x as [|c t IH]; [reflexivity|]. cbn [map JS.dropWhile].
  rewrite f_space. destruct (JS.isSpace c); [exact IH | reflexivity].
Qed.

Lemma trim_map x : JS.trim (map f x) = map f (JS.trim x).
Proof.
  unfold JS.trim, JS.trimEnd, JS.trimStart.
  now rewrite dropWhile_map, <- map_rev, dropWhile_map, map_rev.
Qed.

End CaseMap.

Section CaseOfStatement.

Variable f : ascii -> ascii.
Hypothesis f_word : forall c, JS.isWord (f c) = JS.isWord c.
Hypothesis f_line : forall c, JS.isLineTerminator (f c) = JS.isLineTerminator c.
Hypothesis f_space : forall c, JS.isSpace (f c) = JS.isSpace c.
Hypothesis f_digit : forall c, JS.isDigit (f c) = JS.isDigit c.
Hypothesis f_alpha : forall c, JS.isAlpha (f c) = JS.isAlpha c.
Hypothesis f_other : forall c, JS.isAlpha c = false -> f c = c.
Hypothesis f_canon : forall c, JS.canon (f c) = JS.canon c.
Hypothesis f_upper : forall c, JS.upper (f c) = JS.upper c.
Hypothesis f_lower : forall c, JS.lower (f c) = JS.lower c.

Lemma f_fixed q c : JS.isAlpha q = false -> Ascii.eqb q (f c) = Ascii.eqb q c.
Proof.
  intros Hq. destruct (JS.isAlpha c) eqn:A; [|now rewrite f_other].
  destruct (Ascii.eqb_spec q (f c)) as [->|_].
  - rewrite f_alpha in Hq. congruence.
  - destruct (Ascii.eqb_spec q c) as [->|_]; [congruence | reflexivity].
Qed.

Lemma f_fixed' q c : JS.isAlpha q = false -> Ascii.eqb (f c) q = Ascii.eqb c q.
Proof.
  intros Hq. rewrite (Ascii.eqb_sym (f c)), (Ascii.eqb_sym c). now apply f_fixed.
Qed.

Lemma f_code q c :
  JS.isAlpha (ascii_of_nat q) = false -> q < 256 ->
  (JS.code (f c) =? q) = (JS.code c =? q).
Proof.
  intros Hq Hlt. destruct (JS.isAlpha c) eqn:A; [|now rewrite f_other].
  assert (N : forall d, JS.isAlpha d = true -> (JS.code d =? q) = false).
  { intros d Hd. apply Nat.eqb_neq. intros E. unfold JS.code in E.
    rewrite <- E, ascii_nat_embedding in Hq. congruence. }
  rewrite (N c A). apply N. now rewrite f_alpha.
Qed.

Lemma toUpperCase_map x : JS.toUpperCase (map f x) = JS.toUpperCase x.
Proof. unfold JS.toUpperCase. rewrite map_map. apply map_ext. exact f_upper. Qed.

Lemma toLowerCase_map x : JS.toLowerCase (map f x) = JS.toLowerCase x.
Proof. unfold JS.toLowerCase. rewrite map_map. apply map_ext. exact f_lower. Qed.

(** Every pattern of the validator is stable under the map. *)
Ltac stability :=
  cbv [lineComment blockComment hashComment quoted ddlObject
       fromRegex joinRegex insertRegex updateRegex deleteRegex
       selectListRegex leadingIdent insertColumnsRegex setClauseRegex
       setRegex whereClauseRegex colRegex tupleSeparator
       lit liti plus star lazyStar lazyPlus ident identStart identChar
       chr chri notChr space digit word dot anyChar];
  cbn [stable cat alt map js list_ascii_of_string];
  repeat split; intros c; cbv beta;
  rewrite ?f_canon, ?f_space, ?f_digit, ?f_word, ?f_alpha, ?f_line;
  try reflexivity;
  try (rewrite f_code by (reflexivity || (cbn; lia)); reflexivity);
  try (rewrite f_fixed by reflexivity; reflexivity);
  try (rewrite f_fixed' by reflexivity; reflexivity).

Lemma stable_comments :
  stable f lineComment /\ stable f blockComment /\ stable f hashComment.
Proof. repeat split; stability. Qed.

Lemma stable_quoted : stable f (quoted "'") /\ stable f (quoted dq).
Proof. split; stability. Qed.

Lemma stable_tables :
  stable f fromRegex /\ stable f joinRegex /\ stable f insertRegex
  /\ stable f updateRegex /\ stable f deleteRegex.
Proof. repeat split; stability. Qed.

Lemma stable_columns :
  stable f selectListRegex /\ stable f leadingIdent
  /\ stable f insertColumnsRegex /\ stable f setClauseRegex
  /\ stable f setRegex /\ stable f whereClauseRegex /\ stable f colRegex.
Proof. repeat split; stability. Qed.

Lemma removeComments_map x : removeComments (map f x) = map f (removeComments x).
Proof.
  destruct stable_comments as [S1 [S2 S3]].
  assert (Hsp : map f (js " ") = js " ")
    by (cbn; now rewrite f_other by reflexivity).
  rewrite !removeComments_eq.
  rewrite (@replaceAll_map f f_word f_line _ _ x S1 Hsp).
  rewrite (@replaceAll_map f f_word f_line _ _ _ S2 Hsp).
  rewrite (@replaceAll_map f f_word f_line _ _ _ S3 Hsp).
  apply trim_map. exact f_space.
Qed.

Lemma detectOperationType_map x :
  detectOperationType (map f x) = detectOperationType x.
Proof.
  unfold detectOperationType. now rewrite removeComments_map, toUpperCase_map.
Qed.

Lemma group_map i y : group i (mapSt f y) = option_map (map f) (group i y).
Proof.
  unfold group. cbn [mapSt caps]. induction (caps y) as [|[j w] cs IH];
    [reflexivity|].
  cbn [map find fst snd]. destruct (j =? i); [reflexivity | exact IH].
Qed.

Lemma capture1_map r x :
  stable f r -> capture1 r (map f x) = option_map (map f) (capture1 r x).
Proof.
  intros S. unfold capture1, matchFirst.
  pose proof (@search_map f f_word f_line r x S []) as E. cbn [map] in E.
  rewrite E. destruct (search r [] x) as [[i y]|]; [|reflexivity].
  cbn [option_map fst snd]. apply group_map.
Qed.

Lemma matchAll_map r x :
  stable f r ->
  matchAll r (map f x)
  = map (fun m => (map f (fst m), mapSt f (snd m))) (matchAll r x).
Proof.
  intros S. unfold matchAll.
  pose proof (@pieces_map f f_word f_line r x S 0 []) as E. cbn [map] in E.
  rewrite E. clear E. induction (pieces r 0 [] x) as [|[c|w y] ps IH];
    [reflexivity|exact IH|].
  cbn [map flat_map mapPiece app fst snd]. now rewrite IH.
Qed.

Lemma addMatches_map r text set :
  stable f r -> addMatches r (map f text) set = addMatches r text set.
Proof.
  intros S. unfold addMatches. rewrite (matchAll_map _ _ S). revert set.
  induction (matchAll r text) as [|m ms IH]; intros set; [reflexivity|].
  destruct m as [w y]. cbn [map fold_left]. cbv beta. cbn [fst snd].
  rewrite group_map.
  destruct (group 1 y); cbn [option_map];
    [rewrite toLowerCase_map|]; apply IH.
Qed.

Lemma extractTableNames_map x : extractTableNames (map f x) = extractTableNames x.
Proof.
  destruct stable_tables as [S1 [S2 [S3 [S4 S5]]]].
  unfold extractTableNames. cbv zeta. cbn [fold_left].
  rewrite removeComments_map.
  now rewrite !addMatches_map by assumption.
Qed.

Lemma split_map sep x :
  JS.isAlpha sep = false -> JS.split sep (map f x) = map (map f) (JS.split sep x).
Proof.
  intros Hs. induction x as [|c t IH]; [reflexivity|].
  cbn [map JS.split]. rewrite f_fixed' by exact Hs. rewrite IH.
  destruct (Ascii.eqb c sep); [reflexivity|].
  destruct (JS.split sep t); reflexivity.
Qed.

Lemma statements_map x : length (statements (map f x)) = length (statements x).
Proof.
  destruct stable_quoted as [S1 S2].
  unfold statements. cbv zeta. rewrite removeComments_map.
  rewrite (@replaceAll_map f f_word f_line _ [] _ S1 eq_refl).
  rewrite (@replaceAll_map f f_word f_line _ [] _ S2 eq_refl).
  rewrite split_map by reflexivity.
  induction (JS.split ";" _) as [|s l IH]; [reflexivity|].
  cbn [map filter]. rewrite (trim_map f f_space), length_map.
  destruct (0 <? length (JS.trim s)); cbn [length]; now rewrite IH.
Qed.

Lemma hasMultipleStatements_map x :
  hasMultipleStatements (map f x) = hasMultipleStatements x.
Proof. unfold hasMultipleStatements. now rewrite statements_map. Qed.

Lemma hasBlockedPatterns_map x : hasBlockedPatterns (map f x) = hasBlockedPatterns x.
Proof. unfold hasBlockedPatterns. now rewrite toUpperCase_map. Qed.

Lemma eqs_map_star x : JS.eqs (map f x) (js "*") = JS.eqs x (js "*").
Proof.
  destruct x as [|c [|d t]]; cbn [map JS.eqs js list_ascii_of_string];
    try reflexivity; now rewrite f_fixed' by reflexivity.
Qed.

Lemma select_stage_map list set :
  fold_left
    (fun acc part =>
       match capture1 leadingIdent (JS.trim part) with
       | Some col => JS.setAdd acc (JS.toLowerCase col)
       | None => acc
       end)
    (JS.split "," (map f list)) set
  = fold_left
      (fun acc part =>
         match capture1 leadingIdent (JS.trim part) with
         | Some col => JS.setAdd acc (JS.toLowerCase col)
         | None => acc
         end)
      (JS.split "," list) set.
Proof.
  destruct stable_columns as [_ [S2 _]].
  rewrite split_map by reflexivity. revert set.
  induction (JS.split "," list) as [|part l IH]; intros set; [reflexivity|].
  cbn [map fold_left]. rewrite (trim_map f f_space), capture1_map by exact S2.
  destruct (capture1 leadingIdent (JS.trim part)); cbn [option_map];
    [rewrite toLowerCase_map|]; apply IH.
Qed.

Lemma insert_stage_map list :
  map (fun c => JS.toLowerCase (JS.trim c)) (JS.split "," (map f list))
  = map (fun c => JS.toLowerCase (JS.trim c)) (JS.split "," list).
Proof.
  rewrite split_map by reflexivity. rewrite map_map.
  apply map_ext. intros c. now rewrite (trim_map f f_space), toLowerCase_map.
Qed.

Lemma extractColumnNames_map x :
  extractColumnNames (map f x) = extractColumnNames x.
Proof.
  destruct stable_columns as [S1 [S2 [S3 [S4 [S5 [S6 S7]]]]]].
  unfold extractColumnNames. cbv zeta. rewrite removeComments_map.
  rewrite !capture1_map by assumption.
  destruct (capture1 selectListRegex (removeComments x)) as [list|];
    destruct (capture1 insertColumnsRegex (removeComments x)) as [cols|];
    destruct (capture1 setClauseRegex (removeComments x)) as [setClause|];
    destruct (capture1 whereClauseRegex (removeComments x)) as [whereClause|];
    cbn [option_map];
    rewrite ?(trim_map f f_space), ?eqs_map_star, ?select_stage_map,
      ?insert_stage_map, ?addMatches_map by assumption;
    reflexivity.
Qed.

Lemma analyzeOperation_map x schema :
  analyzeOperation (map f x) schema = analyzeOperation x schema.
Proof.
  unfold analyzeOperation.
  now rewrite detectOperationType_map, extractTableNames_map,
    extractColumnNames_map, toUpperCase_map.
Qed.

(** The verdict on a statement and on its image are the same, up to the text
    of the sanitized statement. *)
Lemma validateSQL_map x schema role allowed :
  let v' := validateSQL (map f x) schema role allowed in
  let v := validateSQL x schema role allowed in
  is_valid v' = is_valid v /\ reason v' = reason v
  /\ operation_analysis v' = operation_analysis v.
Proof.
  cbv zeta. unfold validateSQL. cbv zeta.
  rewrite removeComments_map, (trim_map f f_space), length_map.
  rewrite hasMultipleStatements_map, hasBlockedPatterns_map,
    detectOperationType_map, extractTableNames_map, extractColumnNames_map,
    analyzeOperation_map.
  repeat next_check; repeat split; reflexivity.
Qed.

End CaseOfStatement.

Section UpperAndLower.

Ltac each_character :=
  let c := fresh "c" in
  intros c; destruct c as [[] [] [] [] [] [] [] []];
  try reflexivity;
  let H := fresh "H" in intros H; try reflexivity; vm_compute in H; discriminate.

(** On ASCII text [toUpperCase] is the canonicalisation of the i flag, and
    [toLowerCase] is [asciiLower]; both leave the two cased code units
    outside ASCII alone, which [toUpperCase] and [toLowerCase] do not. *)
Lemma upper_facts :
  (forall c, JS.isWord (JS.canon c) = JS.isWord c)
  /\ (forall c, JS.isLineTerminator (JS.canon c) = JS.isLineTerminator c)
  /\ (forall c, JS.isSpace (JS.canon c) = JS.isSpace c)
  /\ (forall c, JS.isDigit (JS.canon c) = JS.isDigit c)
  /\ (forall c, JS.isAlpha (JS.canon c) = JS.isAlpha c)
  /\ (forall c, JS.isAlpha c = false -> JS.canon c = c)
  /\ (forall c, JS.canon (JS.canon c) = JS.canon c)
  /\ (forall c, JS.upper (JS.canon c) = JS.upper c)
  /\ (forall c, JS.lower (JS.canon c) = JS.lower c).
Proof. repeat split; each_character. Qed.

Lemma lower_facts :
  (forall c, JS.isWord (asciiLower c) = JS.isWord c)
  /\ (forall c, JS.isLineTerminator (asciiLower c) = JS.isLineTerminator c)
  /\ (forall c, JS.isSpace (asciiLower c) = JS.isSpace c)
  /\ (forall c, JS.isDigit (asciiLower c) = JS.isDigit c)
  /\ (forall c, JS.isAlpha (asciiLower c) = JS.isAlpha c)
  /\ (forall c, JS.isAlpha c = false -> asciiLower c = c)
  /\ (forall c, JS.canon (asciiLower c) = JS.canon c)
  /\ (forall c, JS.upper (asciiLower c) = JS.upper c)
  /\ (forall c, JS.lower (asciiLower c) = JS.lower c).
Proof. repeat split; each_character. Qed.

Lemma toUpperCase_ascii x :
  forallb JS.isAscii x = true -> JS.toUpperCase x = map JS.canon x.
Proof.
  intros H. rewrite forallb_forall in H. apply map_ext_in. intros c Hc.
  unfold JS.canon. now rewrite (H c Hc).
Qed.

Lemma toLowerCase_ascii x :
  forallb JS.isAscii x = true -> JS.toLowerCase x = map asciiLower x.
Proof.
  intros H. rewrite forallb_forall in H. apply map_ext_in. intros c Hc.
  unfold asciiLower. now rewrite (H c Hc).
Qed.

End UpperAndLower.

(** X16: the classification of a statement written in ASCII does not depend
    on the case of its letters. *)
Theorem classification_ignores_case x :
  forallb JS.isAscii x = true ->
  detectOperationType (JS.toUpperCase x) = detectOperationType x
  /\ detectOperationType (JS.toLowerCase x) = detectOperationType x.
Proof.
  intros A. rewrite (toUpperCase_ascii x A), (toLowerCase_ascii x A).
  destruct upper_facts as [U1 [U2 [U3 [U4 [U5 [U6 [U7 [U8 U9]]]]]]]].
  destruct lower_facts as [L1 [L2 [L3 [L4 [L5 [L6 [L7 [L8 L9]]]]]]]].
  split; apply detectOperationType_map; assumption.
Qed.

Lemma classification_ignores_case_witness :
  forallb JS.isAscii (js "Revoke all on demo_users from public") = true
  /\ detectOperationType (JS.toUpperCase (js "Revoke all on demo_users from public"))
     = detectOperationType (js "Revoke all on demo_users from public")
  /\ detectOperationType (JS.toLowerCase (js "Revoke all on demo_users from public"))
     = detectOperationType (js "Revoke all on demo_users from public").
Proof.
  split; [reflexivity|].
  apply (classification_ignores_case (js "Revoke all on demo_users from public")).
  reflexivity.
Defined.

(** Outside ASCII the case of a letter can decide the classification:
    [REVO], U+212A, [E x] is not classified, its lower case [revoke x] is
    DDL. *)
Lemma classification_depends_on_kelvin :
  let x := js "REVO" ++ [JS.kelvin] ++ js "E x" in
  JS.toLowerCase x = js "revoke x"
  /\ detectOperationType x = UNKNOWN
  /\ detectOperationType (JS.toLowerCase x) = DDL.
Proof. vm_compute. repeat split. Qed.

(** X17: neither does the verdict: a statement written in ASCII and the same
    statement in upper case, or in lower case, are both valid or both
    rejected, with the same reason and the same analysis. *)
Theorem verdict_ignores_case x schema role allowed :
  forallb JS.isAscii x = true ->
  let v := validateSQL x schema role allowed in
  let up := validateSQL (JS.toUpperCase x) schema role allowed in
  let low := validateSQL (JS.toLowerCase x) schema role allowed in
  (is_valid up = is_valid v /\ reason up = reason v
   /\ operation_analysis up = operation_analysis v)
  /\ (is_valid low = is_valid v /\ reason low = reason v
      /\ operation_analysis low = operation_analysis v).
Proof.
  intros A. rewrite (toUpperCase_ascii x A), (toLowerCase_ascii x A).
  destruct upper_facts as [U1 [U2 [U3 [U4 [U5 [U6 [U7 [U8 U9]]]]]]]].
  destruct lower_facts as [L1 [L2 [L3 [L4 [L5 [L6 [L7 [L8 L9]]]]]]]].
  cbv zeta. split.
  - apply (@validateSQL_map JS.canon); assumption.
  - apply (@validateSQL_map asciiLower); assumption.
Qed.

Lemma verdict_ignores_case_witness :
  forallb JS.isAscii (js "Select Name From Demo_Users") = true
  /\ is_valid (validateSQL (JS.toUpperCase (js "Select Name From Demo_Users"))
                 demoSchema user None)
     = is_valid (validateSQL (js "Select Name From Demo_Users") demoSchema user None)
  /\ is_valid (validateSQL (js "Select Name From Demo_Users") demoSchema user None)
     = true.
Proof.
  split; [reflexivity|]. split; [|vm_compute; reflexivity].
  apply (verdict_ignores_case (js "Select Name From Demo_Users")
           demoSchema user None).
  reflexivity.
Defined.

(** Outside ASCII the case of a letter can decide the verdict: with U+017F
    in the table name the statement is rejected for the unknown table
    [demo_u], and its upper case, [SELECT * FROM DEMO_USERS], is accepted. *)
Lemma verdict_depends_on_long_s :
  let x := js "SELECT * FROM demo_u" ++ [JS.longS] ++ js "ers" in
  JS.toUpperCase x = js "SELECT * FROM DEMO_USERS"
  /\ extractTableNames x = [js "demo_u"]
  /\ is_valid (validateSQL x demoSchema user None) = false
  /\ is_valid (validateSQL (JS.toUpperCase x) demoSchema user None) = true.
Proof. vm_compute. repeat split. Qed.

(** ** A table named in a comment *)

Section CommentedTable.

Lemma word_not_space c :
  JS.isWord c = true -> JS.isSpace c = false /\ JS.isLineTerminator c = false.
Proof.
  destruct c as [[] [] [] [] [] [] [] []]; intros H; try (split; reflexivity);
    vm_compute in H; discriminate.
Qed.

Lemma start_is_word c : JS.isAlpha c || (JS.code c =? 95) = true -> JS.isWord c = true.
Proof.
  destruct c as [[] [] [] [] [] [] [] []]; intros H; try reflexivity;
    vm_compute in H; discriminate.
Qed.

Lemma identifier_words t : isIdentifier t = true -> forallb JS.isWord t = true.
Proof.
  destruct t as [|c r]; [discriminate|]. cbn [isIdentifier forallb].
  intros H. apply andb_true_iff in H as [H1 H2].
  now rewrite (start_is_word _ H1), H2.
Qed.

(** A greedy run of a class over a text made of it, up to the end. *)
Lemma rep_cls_run p k cs z :
  forall w n l,
    forallb p w = true -> length w < n ->
    k (mkSt (rev w ++ l) [] cs) = Some z ->
    rep (mt (Cls p)) true k n (mkSt l w cs) = Some z.
Proof.
  induction w as [|c w IH]; intros n l Hp Hn Hk;
    (destruct n as [|n]; [cbn in Hn; lia|]); rewrite rep_step; cbv zeta;
    rewrite mt_cls; cbn [right left caps].
  - cbn [orElse]. exact Hk.
  - cbn [forallb] in Hp. apply andb_true_iff in Hp as [Hc Hw]. rewrite Hc.
    cbn [right length]. rewrite (proj2 (Nat.ltb_lt _ _)) by lia.
    rewrite (IH n (c :: l) Hw); [reflexivity | cbn in Hn; lia |].
    cbn [rev] in Hk. now rewrite <- app_assoc in Hk.
Qed.

Lemma pieces_skip_all r : forall t l, pieces r (length t) l t = pieces r 0 (rev t ++ l) [].
Proof.
  induction t as [|c t IH]; intros l; [reflexivity|].
  cbn [length pieces rev]. rewrite <- app_assoc. exact (IH (c :: l)).
Qed.

Lemma pieces_miss r l c t :
  matchAt r l (c :: t) = None ->
  pieces r 0 l (c :: t) = Keep c :: pieces r 0 (c :: l) t.
Proof. intros H. change (pieces r 0 l (c :: t)) with
    (match matchAt r l (c :: t) with
     | None => Keep c :: pieces r 0 (c :: l) t
     | Some y =>
         Hit (firstn (length (c :: t) - length (right y)) (c :: t)) y
         :: match length (c :: t) - length (right y) with
            | 0 => Keep c :: pieces r 0 (c :: l) t
            | S m => pieces r m (c :: l) t
            end
     end). now rewrite H.
Qed.

Lemma pieces_hit_all r l c t y :
  matchAt r l (c :: t) = Some y -> right y = [] ->
  pieces r 0 l (c :: t) = Hit (c :: t) y :: pieces r 0 (rev t ++ c :: l) [].
Proof.
  intros H E. change (pieces r 0 l (c :: t)) with
    (match matchAt r l (c :: t) with
     | None => Keep c :: pieces r 0 (c :: l) t
     | Some y =>
         Hit (firstn (length (c :: t) - length (right y)) (c :: t)) y
         :: match length (c :: t) - length (right y) with
            | 0 => Keep c :: pieces r 0 (c :: l) t
            | S m => pieces r m (c :: l) t
            end
     end).
  rewrite H, E. cbn [length Nat.sub]. rewrite pieces_skip_all.
  now rewrite <- (firstn_all (c :: t)) at 2.
Qed.

(** A line comment runs to the end of a text without line end. *)
Lemma lineComment_to_end l w :
  forallb (fun c => negb (JS.isLineTerminator c)) w = true ->
  matchAt lineComment l ("-" :: "-" :: w)%char
  = Some (mkSt (rev w ++ "-" :: "-" :: l)%char [] []).
Proof.
  intros H. unfold matchAt, lineComment.
  rewrite mt_cat, mt_chr. cbn [right left caps]. cbn [Ascii.eqb Bool.eqb].
  rewrite mt_cat, mt_chr. cbn [right left caps]. cbn [Ascii.eqb Bool.eqb].
  rewrite mt_cat. unfold star. rewrite mt_rep. unfold dot.
  apply rep_cls_run; [exact H | cbn; lia |].
  rewrite mt_eol. reflexivity.
Qed.

Variable t : str.
Hypothesis t_identifier : isIdentifier t = true.

Lemma t_line : forallb (fun c => negb (JS.isLineTerminator c)) t = true.
Proof.
  pose proof (identifier_words t t_identifier) as H.
  rewrite forallb_forall in *. intros c Hc.
  now rewrite (proj2 (word_not_space c (H c Hc))).
Qed.

Lemma t_no_space : existsb JS.isSpace t = false.
Proof.
  pose proof (identifier_words t t_identifier) as H. rewrite forallb_forall in H.
  destruct (existsb JS.isSpace t) eqn:E; [|reflexivity].
  apply existsb_exists in E as [c [Hc Hs]].
  now rewrite (proj1 (word_not_space c (H c Hc))) in Hs.
Qed.

Lemma commented_table_stripped :
  removeComments (js "SELECT 1 -- FROM " ++ t) = js "SELECT 1".
Proof.
  rewrite removeComments_eq.
  assert (A : replaceAll lineComment (js " ") (js "SELECT 1 -- FROM " ++ t)
              = js "SELECT 1  ").
  { unfold replaceAll. cbn [js list_ascii_of_string app].
    do 9 (rewrite pieces_miss by (apply lineComment_none; reflexivity);
          rewrite render_keep; apply (f_equal (cons _))).
    match goal with
    | |- context [pieces lineComment 0 ?l ("-" :: "-" :: ?w)%char] =>
        assert (M : matchAt lineComment l ("-" :: "-" :: w)%char
                    = Some (mkSt (rev w ++ "-" :: "-" :: l)%char [] []))
          by (apply lineComment_to_end; cbn [forallb]; now rewrite t_line);
        rewrite (@pieces_hit_all lineComment l _ _ _ M eq_refl)
    end.
    rewrite render_hit.
    change (pieces lineComment 0 _ []) with (@nil piece). reflexivity. }
  rewrite A. vm_compute. reflexivity.
Qed.

Lemma commented_table_kind :
  detectOperationType (js "SELECT 1 -- FROM " ++ t) = SELECT.
Proof.
  unfold detectOperationType. rewrite commented_table_stripped.
  vm_compute. reflexivity.
Qed.

Lemma commented_table_unseen :
  extractTableNames (js "SELECT 1 -- FROM " ++ t) = [].
Proof.
  unfold extractTableNames. rewrite commented_table_stripped.
  vm_compute. reflexivity.
Qed.

Lemma commented_table_not_blank :
  (length (JS.trim (js "SELECT 1 -- FROM " ++ t)) =? 0) = false.
Proof.
  destruct (length (JS.trim (js "SELECT 1 -- FROM " ++ t)) =? 0) eqn:E;
    [|reflexivity].
  apply length_zero, trim_nil_all_space in E. vm_compute in E. discriminate.
Qed.

Lemma commented_table_valid schema role :
  is_valid (validateSQL (js "SELECT 1 -- FROM " ++ t) schema role None) = true.
Proof.
  unfold validateSQL. cbv zeta.
  rewrite commented_table_not_blank, commented_table_stripped.
  destruct role; vm_compute; reflexivity.
Qed.

(** A pattern that starts with a letter fails where the text starts with
    another character. *)
Lemma matchAt_first_letter c0 r1 r2 l c rest :
  Ascii.eqb (JS.canon c) (JS.canon c0) = false ->
  matchAt (Cat (Cat (chri c0) r1) r2) l (c :: rest) = None.
Proof.
  intros H. unfold matchAt, chri. rewrite !mt_cat, mt_cls.
  cbn [right]. now rewrite H.
Qed.

(** A pattern with [\s+] after its first part needs white space in the text. *)
Lemma matchAt_needs_space a b l rt y :
  matchAt (Cat a (Cat (plus space) b)) l rt = Some y ->
  existsb JS.isSpace rt = true.
Proof.
  unfold matchAt. rewrite mt_cat. intros H.
  apply mt_forward in H as [y1 [H1 [w Hw]]]. cbn [right] in Hw.
  unfold plus, space in H1. rewrite !mt_cat, mt_cls in H1.
  destruct (right y1) as [|c u]; [discriminate|].
  destruct (JS.isSpace c) eqn:S; [|discriminate].
  rewrite Hw, existsb_app. cbn [existsb]. rewrite S. apply orb_true_r.
Qed.

Lemma search_in_identifier a b :
  forall l, search (Cat a (Cat (plus space) b)) l t = None.
Proof.
  intros l. apply search_none_intro. intros n l'.
  destruct (matchAt _ l' (skipn n t)) as [y|] eqn:E; [|reflexivity].
  apply matchAt_needs_space in E.
  apply existsb_exists in E as [c [Hc Hs]].
  assert (Hin : In c t).
  { rewrite <- (firstn_skipn n t). apply in_or_app. now right. }
  pose proof t_no_space as N.
  assert (existsb JS.isSpace t = true) by (apply existsb_exists; eauto).
  congruence.
Qed.

Lemma search_miss r l c rest :
  matchAt r l (c :: rest) = None -> search r l (c :: rest) = search r (c :: l) rest.
Proof. intros H. cbn [search]. now rewrite H. Qed.

Lemma search_hit r l rt y :
  matchAt r l rt = Some y -> search r l rt = Some (length l, y).
Proof. intros H. destruct rt; cbn [search]; now rewrite H. Qed.

Lemma mt_chri_hit c0 k l c rest cs :
  Ascii.eqb (JS.canon c) (JS.canon c0) = true ->
  mt (chri c0) k (mkSt l (c :: rest) cs) = k (mkSt (c :: l) rest cs).
Proof. intros H. unfold chri. rewrite mt_cls. cbn [right left caps]. now rewrite H. Qed.

Lemma rep_stop p k n l c rest cs :
  p c = false ->
  rep (mt (Cls p)) true k (S n) (mkSt l (c :: rest) cs) = k (mkSt l (c :: rest) cs).
Proof.
  intros H. rewrite rep_step. cbv zeta. rewrite mt_cls. cbn [right].
  now rewrite H.
Qed.

Lemma consumed_run l w cs cs' :
  consumed (mkSt l w cs) (mkSt (rev w ++ l) [] cs') = w.
Proof.
  unfold consumed. cbn [left]. rewrite length_app, Nat.add_sub.
  rewrite <- (app_nil_r (rev w)) at 2.
  rewrite <- app_assoc, firstn_app, Nat.sub_diag, firstn_all. cbn [firstn app].
  rewrite app_nil_r. apply rev_involutive.
Qed.

(** [FROM\s+(IDENT)] at [FROM t]: the capture is the identifier. *)
Lemma fromTable_at l :
  exists y,
    matchAt ExecuteQuery.fromTable l (js "FROM " ++ t) = Some y
    /\ group 1 y = Some t.
Proof.
  pose proof t_identifier as Hid.
  destruct t as [|c0 r0]; [discriminate Hid|].
  cbn [isIdentifier] in Hid.
  apply andb_true_iff in Hid as [H0 Hr].
  destruct (word_not_space c0 (start_is_word c0 H0)) as [Hs _].
  eexists. unfold matchAt, ExecuteQuery.fromTable, liti.
  cbn [cat map js list_ascii_of_string app].
  do 4 (rewrite ?mt_cat; rewrite mt_chri_hit by reflexivity).
  rewrite mt_cat. unfold plus at 1. rewrite mt_cat. unfold space at 1.
  rewrite mt_cls. cbn [right left caps].
  change (JS.isSpace " ") with true. cbv iota.
  unfold space. rewrite mt_rep. cbn [right length].
  rewrite rep_stop by exact Hs.
  cbn [mt]. unfold ident, identStart, identChar, star.
  rewrite mt_cat, mt_cls. cbn [right left caps]. rewrite H0.
  rewrite mt_rep. cbn [right].
  split;
    [apply rep_cls_run; [exact Hr|apply Nat.lt_succ_diag_r|reflexivity]|].
  unfold group. cbn [caps find fst snd Nat.eqb option_map].
  f_equal. cbn [left right].
  match goal with
  | |- context [rev r0 ++ c0 :: ?X] =>
      replace (rev r0 ++ c0 :: X) with (rev (c0 :: r0) ++ X)
        by (cbn [rev]; now rewrite <- app_assoc)
  end.
  apply consumed_run.
Qed.

Lemma commented_table_primary :
  ExecuteQuery.extractPrimaryTable (js "SELECT 1 -- FROM " ++ t)
  = Some (JS.toLowerCase t).
Proof.
  assert (N : forall a b,
             (forall l c rest, In c (js "SELECT 1 -- FROM ") ->
                               matchAt (Cat a (Cat (plus space) b)) l (c :: rest)
                               = None) ->
             capture1 (Cat a (Cat (plus space) b)) (js "SELECT 1 -- FROM " ++ t)
             = None).
  { intros a b H. unfold capture1, matchFirst.
    cbn [js list_ascii_of_string app].
    do 17 (rewrite search_miss by (apply H; cbn; tauto)).
    now rewrite search_in_identifier. }
  unfold ExecuteQuery.extractPrimaryTable.
  unfold ExecuteQuery.insertInto, ExecuteQuery.updateTable,
    ExecuteQuery.deleteFrom.
  unfold liti. cbn [cat map js list_ascii_of_string].
  rewrite !N.
  - destruct (fromTable_at (rev (js "SELECT 1 -- "))) as [y [Hy Hg]].
    unfold capture1, matchFirst. cbn [js list_ascii_of_string app].
    unfold ExecuteQuery.fromTable, liti.
    cbn [cat map js list_ascii_of_string].
    do 12 (rewrite search_miss by (apply matchAt_first_letter; reflexivity)).
    erewrite search_hit by exact Hy. cbn [option_map snd]. now rewrite Hg.
  - intros l c rest Hc. apply matchAt_first_letter.
    cbn in Hc. repeat (destruct Hc as [<-|Hc]; [reflexivity|]). contradiction.
  - intros l c rest Hc. apply matchAt_first_letter.
    cbn in Hc. repeat (destruct Hc as [<-|Hc]; [reflexivity|]). contradiction.
  - intros l c rest Hc. apply matchAt_first_letter.
    cbn in Hc. repeat (destruct Hc as [<-|Hc]; [reflexivity|]). contradiction.
Qed.

End CommentedTable.

(** X18: [execute-query] reads the table to use from the raw text, comments
    included, while [validateSQL] checks the stripped text: for every
    identifier [t], the statement [SELECT 1 -- FROM t] shows no table to the
    validator, passes revalidation for every role and schema without
    confirmation, and goes to the database with the table [t]. *)
Theorem commented_table_reaches_database t r s c :
  isIdentifier t = true ->
  extractTableNames (js "SELECT 1 -- FROM " ++ t) = []
  /\ ExecuteQuery.route
       (ExecuteQuery.mkRequest (Some (js "SELECT 1 -- FROM " ++ t)) r s c false)
     = ExecuteQuery.ToDatabase SELECT (JS.toLowerCase t)
         (analyzeOperation (js "SELECT 1 -- FROM " ++ t)
            match s with Some s0 => s0 | None => ExecuteQuery.DEFAULT_SCHEMA end).
Proof.
  intros Ht. split; [now apply commented_table_unseen|].
  unfold ExecuteQuery.route.
  cbn [ExecuteQuery.sql ExecuteQuery.role ExecuteQuery.schema
       ExecuteQuery.confirmed ExecuteQuery.skip_revalidation].
  rewrite (commented_table_not_blank t). cbv zeta.
  rewrite (commented_table_valid t Ht). cbn [negb].
  rewrite (commented_table_kind t Ht), (commented_table_primary t Ht).
  rewrite (proj2 (analyzeOperation_confirmation _ _) (commented_table_kind t Ht)).
  cbn [andb]. destruct t as [|c0 r0]; [discriminate Ht|]. reflexivity.
Qed.

Lemma commented_table_reaches_database_witness :
  isIdentifier (js "demo_orders") = true
  /\ extractTableNames (js "SELECT 1 -- FROM " ++ js "demo_orders") = []
  /\ ExecuteQuery.route
       (ExecuteQuery.mkRequest (Some (js "SELECT 1 -- FROM " ++ js "demo_orders"))
          (Some user) None false false)
     = ExecuteQuery.ToDatabase SELECT (JS.toLowerCase (js "demo_orders"))
         (analyzeOperation (js "SELECT 1 -- FROM " ++ js "demo_orders")
            ExecuteQuery.DEFAULT_SCHEMA).
Proof.
  split; [reflexivity|].
  apply (commented_table_reaches_database (js "demo_orders") (Some user) None false).
  reflexivity.
Defined.

(** ** The LIMIT clause of an accepted SELECT *)

Section LimitClause.

Lemma orElse_none a b : orElse a b = None <-> a = None /\ b = None.
Proof.
  unfold orElse. destruct a; split.
  - discriminate.
  - intros [H _]. discriminate H.
  - now split.
  - now intros [_ H].
Qed.

(** Whether a match fails depends on its continuation only through the
    failures of that continuation. *)
Lemma rep_none_iff (ma : (st -> option st) -> st -> option st) g :
  (forall k k' x, (forall y, k y = None <-> k' y = None) ->
                  (ma k x = None <-> ma k' x = None)) ->
  forall n k k' x, (forall y, k y = None <-> k' y = None) ->
                   (rep ma g k n x = None <-> rep ma g k' n x = None).
Proof.
  intros Hma. induction n as [|n IH]; intros k k' x H; [apply H|].
  rewrite !rep_step. cbv zeta.
  assert (E : ma (fun y => if length (right y) <? length (right x)
                           then rep ma g k n y else None) x = None
              <-> ma (fun y => if length (right y) <? length (right x)
                               then rep ma g k' n y else None) x = None).
  { apply Hma. intros y. destruct (length (right y) <? length (right x));
      [now apply IH | tauto]. }
  destruct g; rewrite !orElse_none, E, (H x); tauto.
Qed.

Lemma mt_none_iff r :
  forall k k' x, (forall y, k y = None <-> k' y = None) ->
                 (mt r k x = None <-> mt r k' x = None).
Proof.
  induction r as [|p|a IHa b IHb|a IHa b IHb|g a IHa|i a IHa| |m|];
    intros k k' x H; cbn [mt].
  - apply H.
  - destruct (right x) as [|c t]; [tauto|]. destruct (p c); [apply H|tauto].
  - apply IHa. intros y. now apply IHb.
  - rewrite !orElse_none, (IHa k k' x H), (IHb k k' x H). tauto.
  - now apply rep_none_iff.
  - apply IHa. intros y. apply H.
  - destruct (left x); [apply H|tauto].
  - destruct (atEnd m x); [apply H|tauto].
  - destruct (atWordBoundary x); [apply H|tauto].
Qed.

(** The capture group of [limitRegex] does not change where it matches. *)
Lemma limit_same l rt :
  matchAt limitRegex l rt = None <-> matchAt limitClause l rt = None.
Proof.
  unfold matchAt, limitRegex, limitClause. cbn [cat]. rewrite !mt_cat.
  apply mt_none_iff. intros y1. rewrite !mt_cat.
  apply mt_none_iff. intros y2. rewrite !mt_cat.
  apply mt_none_iff. intros y3. cbn [mt]. apply mt_none_iff.
  intros y4. split; discriminate.
Qed.

Lemma search_none_same r r' :
  (forall l rt, matchAt r l rt = None <-> matchAt r' l rt = None) ->
  forall rt l, search r l rt = None <-> search r' l rt = None.
Proof.
  intros H. induction rt as [|c t IH]; intros l; cbn [search];
    pose proof (H l) as E.
  - destruct (matchAt r l []) eqn:E1, (matchAt r' l []) eqn:E2;
      try tauto; split; try discriminate.
    + intros _. apply E in E2. rewrite E2 in E1. discriminate.
    + intros _. apply E in E1. rewrite E1 in E2. discriminate.
  - destruct (matchAt r l (c :: t)) eqn:E1, (matchAt r' l (c :: t)) eqn:E2;
      try (split; discriminate).
    + split; intros H0.
      * apply E in E2. rewrite E2 in E1. discriminate.
      * apply IH in H0. apply E in E2. rewrite E2 in E1. discriminate.
    + split; intros H0.
      * apply E in E1. rewrite E1 in E2. discriminate.
      * apply E in E1. rewrite E1 in E2. discriminate.
    + apply IH.
Qed.

Lemma search_some_intro r rt :
  forall pre l, matchAt r (rev pre ++ l) rt <> None ->
                search r l (pre ++ rt) <> None.
Proof.
  induction pre as [|c pre IH]; intros l H; cbn [rev app] in *.
  - destruct rt; cbn [search]; destruct (matchAt r l _); congruence.
  - cbn [search]. destruct (matchAt r l _); [discriminate|].
    apply IH. now rewrite <- app_assoc in H.
Qed.

(** Where the first match starts, and what lies behind it there. *)
Lemma search_position r rt :
  forall l i y, search r l rt = Some (i, y) ->
                exists n, i = length l + n
                          /\ matchAt r (rev (firstn n rt) ++ l) (skipn n rt)
                             = Some y.
Proof.
  induction rt as [|c t IH]; intros l i y H; cbn [search] in H.
  - destruct (matchAt r l []) eqn:E; [|discriminate].
    injection H as <- <-. exists 0. cbn. split; [lia|exact E].
  - destruct (matchAt r l (c :: t)) eqn:E.
    + injection H as <- <-. exists 0. cbn. split; [lia|exact E].
    + apply IH in H as [n [Hi Hm]]. exists (S n).
      cbn [firstn skipn rev length] in *. split; [lia|].
      now rewrite <- app_assoc.
Qed.

Lemma rep_some_total (ma : (st -> option st) -> st -> option st) n x :
  rep ma true Some n x <> None.
Proof.
  destruct n; [discriminate|]. rewrite rep_step. cbv zeta.
  rewrite orElse_none. intros [_ H]. discriminate.
Qed.

Lemma canon_L_word c :
  Ascii.eqb (JS.canon c) (JS.canon "L") = true -> JS.isWord c = true.
Proof.
  destruct c as [[] [] [] [] [] [] [] []]; intros H;
    solve [reflexivity | discriminate H].
Qed.

(** [LIMIT 100] after a non-word character, or at the start of the text, is
    a LIMIT clause, whatever follows it: so is [LIMIT 1000]. *)
Lemma limitClause_at l rest :
  match l with c :: _ => JS.isWord c | [] => false end = false ->
  matchAt limitClause l (js "LIMIT 100" ++ rest) <> None.
Proof.
  intros Hl. unfold matchAt, limitClause, liti.
  cbn [cat map js list_ascii_of_string app].
  rewrite mt_cat. cbn [mt].
  unfold atWordBoundary at 1. cbn [left right]. rewrite Hl.
  change (xorb false (JS.isWord "L")) with true. cbv iota.
  do 5 (rewrite ?mt_cat; rewrite mt_chri_hit by reflexivity).
  unfold plus at 1. rewrite !mt_cat. unfold space at 1.
  rewrite mt_cls. cbn [right left caps].
  change (JS.isSpace " ") with true. cbv iota.
  unfold space. rewrite mt_rep. cbn [right length].
  rewrite rep_stop by reflexivity.
  unfold plus, digit. rewrite mt_cat, mt_cls. cbn [right left caps].
  change (JS.isDigit "1") with true. cbv iota.
  rewrite mt_rep. apply rep_some_total.
Qed.

(** Behind a LIMIT clause there is no word character. *)
Lemma limitClause_behind l rt y :
  matchAt limitClause l rt = Some y ->
  match l with c :: _ => JS.isWord c | [] => false end = false.
Proof.
  unfold matchAt, limitClause, liti.
  cbn [cat map js list_ascii_of_string app].
  rewrite mt_cat. cbn [mt]. unfold atWordBoundary at 1. cbn [left right].
  destruct (match l with c :: _ => JS.isWord c | [] => false end);
    [|reflexivity].
  destruct rt as [|c t]; [discriminate|].
  destruct (JS.isWord c) eqn:Hc; [discriminate|]. cbn [xorb].
  unfold chri at 1. rewrite mt_cls. cbn [right left caps].
  destruct (Ascii.eqb (JS.canon c) (JS.canon "L")) eqn:E; [|discriminate].
  apply canon_L_word in E. congruence.
Qed.

Lemma test_true r x : search r [] x <> None -> test r x = true.
Proof. unfold test. destruct (search r [] x); congruence. Qed.

Lemma enforceLimit_has_limit x :
  JS.trim x = x -> detectOperationType x = SELECT ->
  test limitClause (enforceLimit x) = true.
Proof.
  intros Ht Hk. unfold enforceLimit. cbv zeta. rewrite Ht, Hk.
  destruct (capture1 limitRegex x) as [digits|] eqn:C.
  - assert (S : search limitClause [] x <> None).
    { intros N. apply (@search_none_same limitRegex limitClause limit_same) in N.
      unfold capture1, matchFirst in C. rewrite N in C. discriminate. }
    destruct (MAX_LIMIT <? JS.parseInt digits); [|now apply test_true].
    unfold replaceFirst.
    destruct (search limitClause [] x) as [[i y]|] eqn:E; [|congruence].
    apply search_position in E as [n [Hi Hm]]. cbn [length] in Hi. subst i.
    apply test_true. apply search_some_intro.
    apply limitClause_at. eapply limitClause_behind. exact Hm.
  - apply test_true.
    change (js " LIMIT " ++ JS.ofNat DEFAULT_LIMIT)
      with ([" "%char] ++ js "LIMIT 100" ++ []).
    rewrite app_assoc. apply search_some_intro.
    rewrite rev_app_distr. cbn [rev app]. now apply limitClause_at.
Qed.

End LimitClause.

(** X19: a SELECT that is accepted leaves the validator with a LIMIT
    clause: the sanitized text always contains [LIMIT] followed by a
    number. *)
Theorem accepted_select_has_limit sql schema role allowed :
  is_valid (validateSQL sql schema role allowed) = true ->
  detectOperationType sql = SELECT ->
  exists s, sanitized_sql (validateSQL sql schema role allowed) = Some s
            /\ test limitClause s = true.
Proof.
  intros H Hk.
  destruct (validateSQL_accepted sql schema role allowed H)
    as (_ & _ & _ & _ & _ & _ & _ & E).
  rewrite E. eexists. split; [reflexivity|].
  apply enforceLimit_has_limit.
  - apply removeComments_trimmed.
  - now rewrite detectOperationType_stripped.
Qed.

Lemma accepted_select_has_limit_witness :
  is_valid (validateSQL (js "SELECT * FROM Demo_Users") demoSchema user None) = true
  /\ detectOperationType (js "SELECT * FROM Demo_Users") = SELECT
  /\ exists s,
       sanitized_sql
         (validateSQL (js "SELECT * FROM Demo_Users") demoSchema user None)
       = Some s
       /\ test limitClause s = true.
Proof.
  split; [vm_compute; reflexivity|]. split; [vm_compute; reflexivity|].
  apply (accepted_select_has_limit (js "SELECT * FROM Demo_Users")
           demoSchema user None); vm_compute; reflexivity.
Defined.
